(** * Flashare transfer engine: a shallow embedding of [internal/server/server.go]

    The development follows the Go source handler by handler.  Go strings are
    byte strings and are modelled by [string]; the lexical path functions of
    [path/filepath] (Unix flavour) are written out, the filesystem is a finite
    map from cleaned paths to nodes, every [os] call on a path is recorded in a
    call log,
    and the goroutine fan-out of the batch handlers is a step function driven
    by an explicit schedule. *)

From stdpp Require Import gmap strings list fin_maps sorting.
From Stdlib Require Import ZArith Lia Ascii String.
From Stdlib Require DecimalString DecimalNat.
From Stdlib Require Import Permutation Sorted.

Local Open Scope string_scope.
Local Open Scope Z_scope.

(* ===================================================================== *)
(** ** Byte strings *)
(* ===================================================================== *)

Definition bytes (s : string) : list ascii := list_ascii_of_string s.
Definition str (l : list ascii) : string := string_of_list_ascii l.

Definition len (s : string) : nat := String.length s.

(** [os.IsPathSeparator] on Unix. *)
Definition IsPathSeparator (c : ascii) : bool := Ascii.eqb c "/".

Definition isDot (c : ascii) : bool := Ascii.eqb c ".".

(** [strings.HasPrefix s prefix]. *)
Fixpoint hasPrefix (s p : list ascii) : bool :=
  match p, s with
  | [], _ => true
  | _ :: _, [] => false
  | b :: p', a :: s' => Ascii.eqb a b && hasPrefix s' p'
  end.

Definition HasPrefix (s prefix : string) : bool := hasPrefix (bytes s) (bytes prefix).

(** The slice expression [s[:n]]. *)
Definition slice_to (s : string) (n : nat) : string := str (take n (bytes s)).

(** [fmt.Sprintf("%d", i)] for a non-negative counter. *)
Definition Sprintf_d (i : nat) : string := DecimalString.NilZero.string_of_uint (Nat.to_uint i).

(* ===================================================================== *)
(** ** path/filepath (Unix) *)
(* ===================================================================== *)

Module filepath.

(** Longest prefix of a byte list satisfying a test, and the rest. *)
Fixpoint span (f : ascii -> bool) (l : list ascii) : list ascii * list ascii :=
  match l with
  | [] => ([], [])
  | c :: r => if f c then let '(a, b) := span f r in (c :: a, b) else ([], l)
  end.

(** The elements of a path: maximal runs of bytes between separators.
    Empty runs are kept here and dropped by [Clean]. *)
Fixpoint elements (l : list ascii) : list (list ascii) :=
  match l with
  | [] => [[]]
  | c :: r =>
      if IsPathSeparator c then [] :: elements r
      else match elements r with
           | e :: es => (c :: e) :: es
           | [] => [[c]]
           end
  end.

Definition dot : list ascii := bytes ".".
Definition dotdot : list ascii := bytes "..".

Definition is_dot (e : list ascii) : bool := bool_decide (e = dot).
Definition is_dotdot (e : list ascii) : bool := bool_decide (e = dotdot).

(** One turn of the loop of [Clean].  [out] is the output buffer as a
    stack of elements, last written element first.  The buffer position
    [dotdot] of the Go code is the height below which [".."] elements have
    been written: backtracking is possible exactly when the top of the
    stack is an ordinary element. *)
Definition clean_step (rooted : bool) (out : list (list ascii)) (e : list ascii)
  : list (list ascii) :=
  if bool_decide (e = []) then out            (* empty path element *)
  else if is_dot e then out                   (* . element *)
  else if is_dotdot e then                    (* .. element: remove to last separator *)
    match out with
    | top :: rest =>
        if is_dotdot top
        then (if rooted then out else e :: out)
        else rest                             (* can backtrack *)
    | [] => if rooted then out else [e]       (* cannot backtrack *)
    end
  else e :: out.                              (* real path element *)

Fixpoint join_sep (es : list (list ascii)) : list ascii :=
  match es with
  | [] => []
  | [e] => e
  | e :: rest => e ++ "/"%char :: join_sep rest
  end.

Definition render (rooted : bool) (out : list (list ascii)) : list ascii :=
  let body := join_sep (rev out) in
  if rooted then "/"%char :: body
  else match body with [] => dot | _ => body end.

Definition is_rooted (l : list ascii) : bool :=
  match l with c :: _ => IsPathSeparator c | [] => false end.

Definition clean (l : list ascii) : list ascii :=
  match l with
  | [] => dot
  | _ => render (is_rooted l) (fold_left (clean_step (is_rooted l)) (elements l) [])
  end.

(** [filepath.Clean]. *)
Definition Clean (path : string) : string := str (clean (bytes path)).

(** [filepath.Join] with two elements: empty elements are ignored, the
    rest is joined from the first non-empty one on and cleaned. *)
Definition Join (a b : string) : string :=
  if bool_decide (a = "") then
    (if bool_decide (b = "") then "" else Clean b)
  else Clean (a +:+ "/" +:+ b).

(** [filepath.Base]: strip trailing separators, keep what follows the last
    separator; a path of separators only is the root. *)
Definition Base (path : string) : string :=
  if bool_decide (path = "") then "."
  else
    let stripped := (span IsPathSeparator (rev (bytes path))).2 in
    let last := (span (fun c => negb (IsPathSeparator c)) stripped).1 in
    match last with
    | [] => "/"
    | _ => str (rev last)
    end.

(** The backwards scan of [filepath.Ext]: [r] is the path reversed, [acc]
    the bytes already passed.  The scan stops at a separator. *)
Fixpoint ext_scan (r acc : list ascii) : list ascii :=
  match r with
  | [] => []
  | c :: r' =>
      if IsPathSeparator c then []
      else if isDot c then c :: acc
      else ext_scan r' (c :: acc)
  end.

(** [filepath.Ext]. *)
Definition Ext (path : string) : string := str (ext_scan (rev (bytes path)) []).

End filepath.


(* ===================================================================== *)
(** ** Runtime services taken from libraries

    Library code the handlers call and whose result is carried through
    unchanged: the sort of package [sort] (specified by its contract: a
    permutation ordered by [less]; it is not stable), the float formatting of
    [fmt], [strings.ToLower], the MIME table and the zstd codec. *)
(* ===================================================================== *)

(** [less] never ranks a later element of [l] before an earlier one. *)
Definition ordered {A} (less : A -> A -> bool) (l : list A) : Prop :=
  StronglySorted (fun x y => less y x = false) l.

(** What [sort.Slice] requires of [less] to order a slice. *)
Definition strict_weak {A} (less : A -> A -> bool) : Prop :=
  (forall x y, less x y = true -> less y x = false) /\
  (forall x y z, less x y = false -> less y z = false -> less x z = false).

Class Runtime := {
  sort_Slice : forall {A : Type}, (A -> A -> bool) -> list A -> list A;
  (** [fmt.Sprintf("%.1f", float64(a)/float64(b))] *)
  Sprintf_f1 : Z -> Z -> string;
  (** [strings.ToLower] *)
  ToLower : string -> string;
  (** [mime.TypeByExtension] *)
  TypeByExtension : string -> string;
  (** the frame written by a [zstd.Encoder] that is fed [b] and closed *)
  zstd_encode : list Byte.byte -> list Byte.byte;
  zstd_decode : list Byte.byte -> option (list Byte.byte)
}.

(** The contracts of the library code: [sort.Slice] permutes its slice and
    orders it by [less]; a closed zstd frame decodes to what was written. *)
Record Lawful (rt : Runtime) : Prop := {
  sort_Slice_perm : forall A (less : A -> A -> bool) l,
      Permutation (sort_Slice less l) l;
  sort_Slice_ordered : forall A (less : A -> A -> bool) l,
      strict_weak less -> ordered less (sort_Slice less l);
  zstd_roundtrip : forall b, zstd_decode (zstd_encode b) = Some b
}.

(** [insertionSortLessFunc] of package [sort], which [sort.Slice] runs on
    slices of at most twelve elements: every element in turn is swapped
    towards the front while it is [less] than its left neighbour.  [sink]
    takes the sorted prefix reversed (left neighbour first). *)
Fixpoint sink {A} (less : A -> A -> bool) (x : A) (left : list A) : list A :=
  match left with
  | [] => [x]
  | y :: r => if less x y then y :: sink less x r else x :: y :: r
  end.

Definition insertionSortLessFunc {A} (less : A -> A -> bool) (l : list A) : list A :=
  rev (fold_left (fun sorted x => sink less x sorted) l []).

(** A runtime on which the handlers can be evaluated: the sort is the
    insertion sort above, the codec frames its input behind one marker byte,
    and the formatting helpers are simple stand-ins. *)
Definition refRuntime : Runtime := {|
  sort_Slice := @insertionSortLessFunc;
  Sprintf_f1 := fun a b => DecimalString.NilZero.string_of_int (Z.to_int (a / b));
  ToLower := fun s => s;
  TypeByExtension := fun _ => "application/octet-stream";
  zstd_encode := fun b => Byte.x28 :: b;
  zstd_decode := fun z => match z with Byte.x28 :: b => Some b | _ => None end
|}.

(* ===================================================================== *)
(** ** The filesystem and the [os] calls *)
(* ===================================================================== *)

Inductive node :=
  | File (content : list Byte.byte) (mtime : Z)
  | Dir (size mtime : Z).

Inductive call :=
  | CStat (p : string)
  | COpen (p : string)
  | CCreate (p : string)
  | CWrite (p : string) (n : nat)
  | CRemove (p : string)
  | CReadDir (p : string)
  | CLstat (p : string).

(** [fs] maps a cleaned path to what is stored there, [now] is the clock
    that stamps modification times, [calls] logs every [os] call made on a
    path. *)
Record World := mkWorld {
  fs : gmap string node;
  now : Z;
  calls : list call
}.

Definition M (A : Type) : Type := World -> A * World.
Definition ret {A} (a : A) : M A := fun w => (a, w).
Definition bind {A B} (m : M A) (k : A -> M B) : M B :=
  fun w => let '(a, w') := m w in k a w'.
#[global] Instance M_ret : MRet M := @ret.
#[global] Instance M_bind : MBind M := fun A B k m => bind m k.

Definition trace (c : call) : M unit :=
  fun w => (tt, mkWorld (fs w) (now w) (calls w ++ [c])).
Definition get_fs : M (gmap string node) := fun w => (fs w, w).
Definition put_fs (m : gmap string node) : M unit :=
  fun w => (tt, mkWorld m (now w) (calls w)).
Definition get_now : M Z := fun w => (now w, w).

Definition node_size (n : node) : Z :=
  match n with File c _ => Z.of_nat (List.length c) | Dir s _ => s end.
Definition node_mtime (n : node) : Z :=
  match n with File _ t => t | Dir _ t => t end.
Definition node_is_dir (n : node) : bool :=
  match n with File _ _ => false | Dir _ _ => true end.

(** The name under which [key] is an entry of directory [dir], if it is one. *)
Definition entry_name (dir key : string) : option string :=
  let d := if bool_decide (dir = "/") then bytes dir else (bytes dir ++ ["/"%char])%list in
  if hasPrefix (bytes key) d then
    let name := drop (List.length d) (bytes key) in
    if bool_decide (name = []) || existsb IsPathSeparator name then None
    else Some (str name)
  else None.

Definition children (m : gmap string node) (dir : string) : list (string * node) :=
  omap (fun kv => name ← entry_name dir kv.1; Some (name, kv.2)) (map_to_list m).

Module os.

(** [os.Stat]: [true] when the error is nil, [false] for [ErrNotExist].
    Errors that are neither (an over-long name, a missing permission) are
    outside this model of the filesystem. *)
Definition Stat (p : string) : M bool :=
  trace (CStat p);; m ← get_fs; ret (bool_decide (is_Some (m !! p))).

(** [os.Open] followed by [file.Stat] on the handle. *)
Definition Open (p : string) : M (option node) :=
  trace (COpen p);; m ← get_fs; ret (m !! p).

(** [os.Create]: create or truncate; fails on a directory.  The other
    causes of failure (a missing parent directory, an over-long name, a
    missing permission) are outside this model of the filesystem. *)
Definition Create (p : string) : M bool :=
  trace (CCreate p);;
  m ← get_fs;
  t ← get_now;
  match m !! p with
  | Some (Dir _ _) => ret false
  | _ => put_fs (<[p := File [] t]> m);; ret true
  end.

(** The writes of [io.Copy] into an open destination. *)
Definition Write (p : string) (data : list Byte.byte) : M unit :=
  trace (CWrite p (List.length data));;
  m ← get_fs;
  t ← get_now;
  match m !! p with
  | Some (File c _) => put_fs (<[p := File (c ++ data)%list t]> m)
  | _ => ret tt
  end.

(** [os.Remove]: a file, or an empty directory. *)
Definition Remove (p : string) : M bool :=
  trace (CRemove p);;
  m ← get_fs;
  match m !! p with
  | Some (File _ _) => put_fs (delete p m);; ret true
  | Some (Dir _ _) =>
      match children m p with
      | [] => put_fs (delete p m);; ret true
      | _ => ret false
      end
  | None => ret false
  end.

End os.

(** A directory entry as [os.ReadDir] returns it. *)
Module DirEntry.
Record t := mk { Name : string; IsDir : bool }.
End DirEntry.

Module osdir.

(** [os.ReadDir]: the entries of a directory, sorted by file name. *)
Definition ReadDir (dir : string) : M (option (list DirEntry.t)) :=
  trace (CReadDir dir);;
  m ← get_fs;
  match m !! dir with
  | Some (Dir _ _) =>
      ret (Some (insertionSortLessFunc
                   (fun a b => String.ltb (DirEntry.Name a) (DirEntry.Name b))
                   (map (fun kv => DirEntry.mk kv.1 (node_is_dir kv.2)) (children m dir))))
  | _ => ret None
  end.

(** [entry.Info()]: an [lstat] of the entry at the time of the call. *)
Definition Info (dir : string) (e : DirEntry.t) : M (option node) :=
  let p := dir +:+ "/" +:+ DirEntry.Name e in
  trace (CLstat p);; m ← get_fs; ret (m !! p).

End osdir.

(* ===================================================================== *)
(** ** Data model of the server *)
(* ===================================================================== *)

Record Config := mkConfig { Host : string; Port : Z; UploadsDir : string }.

Module FileInfo.
Record t := mk {
  Name : string; Size : Z; SizeHuman : string; Modified : Z; Type_ : string
}.
End FileInfo.

Module UploadResult.
Record t := mk {
  Success : bool; Filename : string; Size : Z; SizeHuman : string;
  Type_ : string; Error : string
}.
(** The zero value [make] fills a fresh slice with. *)
Definition zero : t := mk false "" 0 "" "" "".
End UploadResult.

Module deleteResult.
Record t := mk { Filename : string; Success : bool; Error : string }.
Definition zero : t := mk "" false "".
End deleteResult.

(** An uploaded part ([multipart.FileHeader]) together with what its stream
    will do: [Open_err] makes [file.Open] fail, [Copy_err = Some n] makes
    [io.Copy] fail once [n] bytes have reached the destination. *)
Module FileHeader.
Record t := mk {
  Filename : string;
  Content : list Byte.byte;
  Open_err : bool;
  Copy_err : option nat
}.
End FileHeader.

(** The [summary] objects of the batch answers. *)
Record Summary := mkSummary {
  total : Z; successful : Z; failed : Z; total_size : Z; total_size_human : string
}.

Record DeleteSummary := mkDeleteSummary {
  dtotal : Z; dsuccessful : Z; dfailed : Z
}.

(** What the framework reads from when it sends a body registered with
    [c.SendStream]: a file that is still open, an open directory, or a handle
    that has been closed in the meantime. *)
Inductive reader :=
  | Open_file (content : list Byte.byte)
  | Open_dir
  | Closed_file.

(** Response bodies, one constructor per JSON shape or stream. *)
Inductive Body :=
  | BError (error : string)                       (* {"error": ...} *)
  | BFailure (error : string)                     (* {"success": false, "error": ...} *)
  | BFiles (files : list FileInfo.t)
  | BStream (data : list Byte.byte)               (* bytes written to the response buffer *)
  | BSendStream (r : reader)                      (* read after the handler has returned *)
  | BUpload (result : UploadResult.t)
  | BUploadMultiple (success : bool) (files : list UploadResult.t) (summary : Summary)
  | BDeleted (deleted : string)                   (* {"success": true, "deleted": ...} *)
  | BDeleteMultiple (success : bool) (results : list deleteResult.t) (summary : DeleteSummary)
  | BFault.                                       (* an I/O error handed back to the framework *)

Record Response := mkResponse {
  status : nat;
  headers : list (string * string);
  body : Body
}.

Definition JSON (code : nat) (b : Body) : Response := mkResponse code [] b.

(** Two's-complement wrap-around of [int64] arithmetic. *)
Definition wrap64 (z : Z) : Z := (z + 2 ^ 63) mod 2 ^ 64 - 2 ^ 63.

(** [fmt.Sprintf("%d", z)] for an [int64]. *)
Definition Sprintf_dZ (z : Z) : string := DecimalString.NilZero.string_of_int (Z.to_int z).

Definition dquote : string := String (ascii_of_nat 34) EmptyString.

(** Reading a registered stream to its end, as the framework does when it
    writes the response: only an open file yields its bytes. *)
Definition read_all (r : reader) : option (list Byte.byte) :=
  match r with
  | Open_file content => Some content
  | Open_dir => None
  | Closed_file => None
  end.

(** The bytes of the body that reach the client, for the two kinds of byte
    bodies. *)
Definition delivered (b : Body) : option (list Byte.byte) :=
  match b with
  | BStream data => Some data
  | BSendStream r => read_all r
  | _ => None
  end.

(** The headers on the wire: for bytes held in the response buffer the
    framework adds their length as [Content-Length]. *)
Definition wire_headers (resp : Response) : list (string * string) :=
  match body resp with
  | BStream data =>
      (headers resp ++ [("Content-Length", Sprintf_dZ (Z.of_nat (List.length data)))])%list
  | _ => headers resp
  end.

(** The deferred [file.Close()]: it runs when the handler returns, before
    the framework reads a stream registered on the file. *)
Definition file_Close (resp : Response) : Response :=
  match body resp with
  | BSendStream _ => mkResponse (status resp) (headers resp) (BSendStream Closed_file)
  | _ => resp
  end.

(** [strconv.ParseBool]. *)
Definition ParseBool (s : string) : option bool :=
  if bool_decide (s ∈ ["1"; "t"; "T"; "TRUE"; "true"; "True"]) then Some true
  else if bool_decide (s ∈ ["0"; "f"; "F"; "FALSE"; "false"; "False"]) then Some false
  else None.

(** [c.QueryBool(key, defaultValue)]: the parsed value of the query
    argument ([None] when the key is absent, which reads as the empty
    string), the default when it does not parse. *)
Definition QueryBool (arg : option string) (defaultValue : bool) : bool :=
  match ParseBool (default "" arg) with
  | Some b => b
  | None => defaultValue
  end.

(** Running the goroutines of a batch: the schedule lists, in order, which
    task takes its next atomic step. *)
Fixpoint run_sched {P} (step : nat -> P -> M P) (sched : list nat) (p : P) : M P :=
  match sched with
  | [] => ret p
  | i :: rest => p' ← step i p; run_sched step rest p'
  end.

(* ===================================================================== *)
(** ** The handlers of [server.go] *)
(* ===================================================================== *)

Section Server.

Context `{Runtime}.
Variable config : Config.

(** *** Utility functions *)

Fixpoint formatSize_loop (fuel : nat) (n div : Z) (exp : nat) : Z * nat :=
  match fuel with
  | O => (div, exp)
  | S k =>
      if n >=? 1024 then formatSize_loop k (Z.quot n 1024) (div * 1024) (S exp)
      else (div, exp)
  end.

(** An [int64] is below 1024 after at most six divisions by 1024. *)
Definition formatSize (size : Z) : string :=
  if size <? 1024 then Sprintf_dZ size +:+ " B"
  else
    let '(div, exp) := formatSize_loop 7 (Z.quot size 1024) 1024 0 in
    Sprintf_f1 size div +:+ " " +:+
      match String.get exp "KMGTPE" with Some c => String c "" | None => "" end +:+ "B".

Definition getFileType (filename : string) : string :=
  let ext := ToLower (filepath.Ext filename) in
  if bool_decide (ext ∈ [".jpg"; ".jpeg"; ".png"; ".gif"; ".webp"; ".svg"; ".heic"; ".bmp"])
  then "image"
  else if bool_decide (ext ∈ [".mp4"; ".mov"; ".avi"; ".mkv"; ".webm"; ".m4v"])
  then "video"
  else if bool_decide (ext ∈ [".mp3"; ".wav"; ".flac"; ".aac"; ".ogg"; ".m4a"])
  then "audio"
  else if bool_decide (ext ∈ [".pdf"; ".doc"; ".docx"; ".txt"; ".rtf"; ".md"; ".xls";
                              ".xlsx"; ".csv"])
  then "document"
  else "file".

(** *** handleListFiles *)

Definition visible (e : DirEntry.t) : bool :=
  negb (DirEntry.IsDir e || HasPrefix (DirEntry.Name e) ".").

(** The state shared by the listing goroutines: which have run, and the
    slice they append to under the mutex. *)
Record ListPool := mkListPool { listed : list bool; listing : list FileInfo.t }.

(** The goroutine started for entry number [idx]. *)
Definition list_step (entries : list DirEntry.t) (idx : nat) (p : ListPool) : M ListPool :=
  match entries !! idx, listed p !! idx with
  | Some entry, Some false =>
      info ← osdir.Info (UploadsDir config) entry;
      match info with
      | None => ret (mkListPool (<[idx := true]> (listed p)) (listing p))
      | Some n =>
          let fileInfo :=
            FileInfo.mk (DirEntry.Name entry) (node_size n) (formatSize (node_size n))
                        (node_mtime n) (getFileType (DirEntry.Name entry)) in
          ret (mkListPool (<[idx := true]> (listed p)) (listing p ++ [fileInfo])%list)
      end
  | _, _ => ret p
  end.

Definition newer (a b : FileInfo.t) : bool := FileInfo.Modified a >? FileInfo.Modified b.

(** [None]: [wg.Wait] is still blocked when the schedule ends. *)
Definition handleListFiles (sched : list nat) : M (option Response) :=
  r ← osdir.ReadDir (UploadsDir config);
  match r with
  | None => ret (Some (JSON 200 (BFiles [])))
  | Some entries =>
      let started := filter (fun e => visible e = true) entries in
      p ← run_sched (list_step started) sched
            (mkListPool (replicate (List.length started) false) []);
      if forallb id (listed p)
      then ret (Some (JSON 200 (BFiles (sort_Slice newer (listing p)))))
      else ret None
  end.

(** *** handleDownload *)

Definition contained (filePath : string) : bool := HasPrefix filePath (UploadsDir config).

Definition handleDownload (filename : string) (compressedArg : option string) : M Response :=
  let compressed := QueryBool compressedArg true in
  let filePath := filepath.Join (UploadsDir config) (filepath.Clean filename) in
  if negb (contained filePath) then ret (JSON 403 (BError "Access denied"))
  else
    file ← os.Open filePath;
    match file with
    | None => ret (JSON 404 (BError "File not found"))
    | Some stat =>
        (* from here on [defer file.Close()] is pending *)
        let disposition :=
          ("Content-Disposition", "attachment; filename=" +:+ dquote +:+ filename +:+ dquote) in
        if (compressed : bool) then
          let hs := [disposition; ("Content-Encoding", "zstd");
                     ("Content-Type", "application/octet-stream")] in
          (* [io.Copy(encoder, file)] runs inside the handler *)
          match stat with
          | File content _ =>
              ret (file_Close (mkResponse 200 hs (BStream (zstd_encode content))))
          | Dir _ _ => ret (file_Close (mkResponse 500 hs BFault))
          end
        else
          let hs := [disposition; ("Content-Length", Sprintf_dZ (node_size stat));
                     ("Content-Type", TypeByExtension (filepath.Ext filename))] in
          (* [c.SendStream(file)] only registers the file as body stream *)
          match stat with
          | File content _ =>
              ret (file_Close (mkResponse 200 hs (BSendStream (Open_file content))))
          | Dir _ _ => ret (file_Close (mkResponse 200 hs (BSendStream Open_dir)))
          end
    end.

(** *** saveUploadedFile *)

Definition candidate (base ext : string) (i : nat) : string :=
  base +:+ "_" +:+ Sprintf_d i +:+ ext.

(** The loop [for i := 1; ; i++] over the candidates.  It leaves at the
    first candidate that does not exist; [fuel] bounds the turns, and one
    turn more than there are entries in the filesystem always reaches a
    free candidate (lemma [dupLoop_finds] below).  The source leaves only
    when the error is [ErrNotExist]; in this model [os.Stat] has no other
    error, so the candidates on which the real loop would go on for another
    reason do not arise. *)
Fixpoint dupLoop (fuel : nat) (base ext : string) (i : nat) : M string :=
  let destPath := candidate base ext i in
  match fuel with
  | O => ret destPath
  | S k =>
      taken ← os.Stat destPath;
      if (taken : bool) then dupLoop k base ext (S i) else ret destPath
  end.

(** First half of [saveUploadedFile]: the destination path and the name
    reported to the client. *)
Definition resolveName (file : FileHeader.t) : M (string * string) :=
  let filename := filepath.Base (FileHeader.Filename file) in
  let destPath := filepath.Join (UploadsDir config) filename in
  taken ← os.Stat destPath;
  if (taken : bool) then
    let ext := filepath.Ext destPath in
    let base := slice_to destPath (len destPath - len ext) in
    m ← get_fs;
    destPath' ← dupLoop (S (size m)) base ext 1;
    ret (destPath', filepath.Base destPath')
  else ret (destPath, filename).

Definition uploadFailure (filename error : string) : UploadResult.t :=
  UploadResult.mk false filename 0 "" "" error.

(** Second half: open the source, create the destination, copy.  In a
    schedule this half is one step: the writes of [io.Copy] are not
    interleaved with the steps of other goroutines. *)
Definition writeUpload (file : FileHeader.t) (destPath filename : string)
  : M UploadResult.t :=
  if FileHeader.Open_err file then ret (uploadFailure filename "Failed to read file")
  else
    created ← os.Create destPath;
    if negb created then ret (uploadFailure filename "Failed to create file")
    else
      match FileHeader.Copy_err file with
      | Some n =>
          os.Write destPath (take n (FileHeader.Content file));;
          os.Remove destPath;;
          ret (uploadFailure filename "Failed to save file")
      | None =>
          os.Write destPath (FileHeader.Content file);;
          let written := Z.of_nat (List.length (FileHeader.Content file)) in
          ret (UploadResult.mk true filename written (formatSize written)
                               (getFileType filename) "")
      end.

Definition saveUploadedFile (file : FileHeader.t) : M UploadResult.t :=
  dn ← resolveName file;
  writeUpload file dn.1 dn.2.

(** *** handleUpload *)

Definition handleUpload (formFile : option FileHeader.t) : M Response :=
  match formFile with
  | None => ret (JSON 400 (BUpload (uploadFailure "" "No file provided")))
  | Some file =>
      result ← saveUploadedFile file;
      if negb (UploadResult.Success result) then ret (JSON 400 (BUpload result))
      else ret (JSON 200 (BUpload result))
  end.

(** *** handleUploadMultiple *)

(** Where the goroutine of one file stands: between the existence checks
    and the creation of the destination another goroutine may run. *)
Inductive task :=
  | Pending
  | Resolved (destPath filename : string)
  | Finished.

Definition is_finished (t : task) : bool :=
  match t with Finished => true | _ => false end.

Record UploadPool := mkUploadPool { tasks : list task; results : list UploadResult.t }.

Definition upload_step (files : list FileHeader.t) (idx : nat) (p : UploadPool)
  : M UploadPool :=
  match files !! idx, tasks p !! idx with
  | Some f, Some Pending =>
      dn ← resolveName f;
      ret (mkUploadPool (<[idx := Resolved dn.1 dn.2]> (tasks p)) (results p))
  | Some f, Some (Resolved destPath filename) =>
      r ← writeUpload f destPath filename;
      ret (mkUploadPool (<[idx := Finished]> (tasks p)) (<[idx := r]> (results p)))
  | _, _ => ret p
  end.

(** The loop that calculates the summary: [(successful, failed, totalSize)]. *)
Definition summary_step (acc : Z * Z * Z) (r : UploadResult.t) : Z * Z * Z :=
  let '(successful, failed, totalSize) := acc in
  if UploadResult.Success r
  then (successful + 1, failed, wrap64 (totalSize + UploadResult.Size r))
  else (successful, failed + 1, totalSize).

Definition uploadSummary (nfiles : nat) (results : list UploadResult.t) : bool * Summary :=
  let '(successful, failed, totalSize) := fold_left summary_step results (0, 0, 0) in
  (failed =? 0,
   mkSummary (Z.of_nat nfiles) successful failed totalSize (formatSize totalSize)).

Definition handleUploadMultiple (form : option (gmap string (list FileHeader.t)))
    (sched : list nat) : M (option Response) :=
  match form with
  | None => ret (Some (JSON 400 (BFailure "Invalid form data")))
  | Some form =>
      let files := default [] (form !! "files") in
      if bool_decide (List.length files = 0%nat)
      then ret (Some (JSON 400 (BFailure "No files provided")))
      else
        p ← run_sched (upload_step files) sched
              (mkUploadPool (replicate (List.length files) Pending)
                            (replicate (List.length files) UploadResult.zero));
        if forallb is_finished (tasks p) then
          let '(ok, summary) := uploadSummary (List.length files) (results p) in
          ret (Some (JSON 200 (BUploadMultiple ok (results p) summary)))
        else ret None
  end.

(** *** handleDelete *)

Definition handleDelete (filename : string) : M Response :=
  let filePath := filepath.Join (UploadsDir config) (filepath.Clean filename) in
  if negb (contained filePath) then ret (JSON 403 (BError "Access denied"))
  else
    removed ← os.Remove filePath;
    if negb removed then ret (JSON 404 (BError "File not found"))
    else ret (JSON 200 (BDeleted filename)).

(** *** handleDeleteMultiple *)

Record DeletePool := mkDeletePool { deleted : list bool; dresults : list deleteResult.t }.

(** The goroutine of one file name; it writes its slot exactly once. *)
Definition deleteOne (fname : string) : M deleteResult.t :=
  let filePath := filepath.Join (UploadsDir config) (filepath.Clean fname) in
  if negb (contained filePath) then ret (deleteResult.mk fname false "Access denied")
  else
    removed ← os.Remove filePath;
    if negb removed then ret (deleteResult.mk fname false "File not found")
    else ret (deleteResult.mk fname true "").

Definition delete_step (filenames : list string) (idx : nat) (p : DeletePool)
  : M DeletePool :=
  match filenames !! idx, deleted p !! idx with
  | Some fname, Some false =>
      r ← deleteOne fname;
      ret (mkDeletePool (<[idx := true]> (deleted p)) (<[idx := r]> (dresults p)))
  | _, _ => ret p
  end.

Definition count_successful (results : list deleteResult.t) : Z :=
  fold_left (fun n r => if deleteResult.Success r then n + 1 else n) results 0.

(** [body]: [None] when [c.BodyParser] fails, else the decoded
    [filenames] (empty when the key is missing or null). *)
Definition handleDeleteMultiple (body : option (list string)) (sched : list nat)
  : M (option Response) :=
  match body with
  | None => ret (Some (JSON 400 (BError "Invalid request")))
  | Some filenames =>
      let n := List.length filenames in
      p ← run_sched (delete_step filenames) sched
            (mkDeletePool (replicate n false) (replicate n deleteResult.zero));
      if forallb id (deleted p) then
        let successful := count_successful (dresults p) in
        ret (Some (JSON 200
               (BDeleteMultiple (successful =? Z.of_nat n) (dresults p)
                  (mkDeleteSummary (Z.of_nat n) successful (Z.of_nat n - successful)))))
      else ret None
  end.

End Server.

(** The request body limit set in [New] (10GB): the framework refuses
    larger requests before any handler runs. *)
Definition BodyLimit : Z := 10 * 1024 * 1024 * 1024.

(** Bytes carried by the parts of one multipart request. *)
Definition request_size (files : list FileHeader.t) : Z :=
  fold_right (fun f acc => Z.of_nat (List.length (FileHeader.Content f)) + acc) 0 files.

(** [filePath] names the directory [dir] or something below it. *)
Definition lies_inside (dir filePath : string) : bool :=
  bool_decide (filePath = dir) || HasPrefix filePath (dir +:+ "/").

(** The values ranged over by the statements on batch answers. *)
Definition failures (results : list UploadResult.t) : Z :=
  Z.of_nat (List.length (filter (fun r => UploadResult.Success r = false) results)).

Definition successful_bytes (results : list UploadResult.t) : Z :=
  fold_right (fun r acc => if UploadResult.Success r then UploadResult.Size r + acc else acc)
             0 results.

(** [descending l]: modification times never increase along [l]. *)
Definition descending (l : list FileInfo.t) : Prop :=
  StronglySorted (fun a b => FileInfo.Modified a >= FileInfo.Modified b) l.

(** A small installation used to evaluate the handlers. *)
Module Sample.

Definition config : Config := mkConfig "0.0.0.0" 8000 "/srv/uploads".

Definition A : list Byte.byte := [Byte.x41].
Definition B : list Byte.byte := [Byte.x42; Byte.x42].
Definition secret : list Byte.byte := [Byte.x73; Byte.x33].

(** The shared directory is empty and has a sibling whose name extends
    its own. *)
Definition disk : gmap string node :=
  <["/srv/uploads_backup/secret.txt" := File secret 5]>
    (<["/srv/uploads_backup" := Dir 4096 5]>
       (<["/srv/uploads" := Dir 4096 0]>
          (<["/srv" := Dir 4096 0]> ∅))).

Definition world : World := mkWorld disk 100 [].

(** Two files of the shared directory modified in the same second. *)
Definition tied : World :=
  mkWorld (<["/srv/uploads/b.txt" := File B 7]>
             (<["/srv/uploads/a.txt" := File A 7]> disk)) 100 [].

Definition part (name : string) (content : list Byte.byte) : FileHeader.t :=
  FileHeader.mk name content false None.

Definition broken_part (name : string) (content : list Byte.byte) (n : nat)
  : FileHeader.t :=
  FileHeader.mk name content false (Some n).

End Sample.

(* ===================================================================== *)
(** ** Vocabulary of the statements *)
(* ===================================================================== *)

(** The reversed prefix is sorted the other way round: nothing further
    down the stack (an earlier element) is ranked after a later one. *)
Definition stacked {A} (less : A -> A -> bool) (l : list A) : Prop :=
  StronglySorted (fun later earlier => less later earlier = false) l.

Definition raw_values : list string := ["0"; "f"; "F"; "FALSE"; "false"; "False"].

Definition not_a_directory (w : World) (p : string) : Prop :=
  forall size mtime, fs w !! p <> Some (Dir size mtime).

(** [r] is a result the goroutine of part [f] can produce: its name
    resolution ran in some world, its copy in some later one. *)
Definition outcome_of `{Runtime} (config : Config) (f : FileHeader.t) (r : UploadResult.t)
  : Prop :=
  exists w1 w2,
    r = (writeUpload f (resolveName config f w1).1.1 (resolveName config f w1).1.2 w2).1.

Definition sized (f : FileHeader.t) (r : UploadResult.t) : Prop :=
  0 <= UploadResult.Size r <= Z.of_nat (List.length (FileHeader.Content f)).

(** What holds of the pool at every point of every schedule. *)
Definition upload_inv `{Runtime} (config : Config) (files : list FileHeader.t)
    (p : UploadPool) : Prop :=
  List.length (tasks p) = List.length files /\
  Forall2 sized files (results p) /\
  forall i f, files !! i = Some f ->
    match tasks p !! i with
    | Some Finished => exists r, results p !! i = Some r /\ outcome_of config f r
    | Some (Resolved d n) => exists w1, (resolveName config f w1).1 = (d, n)
    | Some Pending => True
    | None => False
    end.

(** How many steps a task has taken. *)
Definition progress (t : option task) : nat :=
  match t with
  | Some Pending => 0
  | Some (Resolved _ _) => 1
  | Some Finished => 2
  | None => 0
  end.

(** Every one of the [n] goroutines gets at least [k] turns. *)
Definition complete (k n : nat) (sched : list nat) : Prop :=
  forall i, (i < n)%nat -> (k <= count_occ Nat.eq_dec sched i)%nat.

Definition upload_start (files : list FileHeader.t) : UploadPool :=
  mkUploadPool (replicate (List.length files) Pending)
               (replicate (List.length files) UploadResult.zero).

Definition delete_start (filenames : list string) : DeletePool :=
  mkDeletePool (replicate (List.length filenames) false)
               (replicate (List.length filenames) deleteResult.zero).

Definition delete_inv (config : Config) (filenames : list string) (p : DeletePool) : Prop :=
  List.length (deleted p) = List.length filenames /\
  List.length (dresults p) = List.length filenames /\
  forall i fname, filenames !! i = Some fname -> deleted p !! i = Some true ->
    exists r wi, dresults p !! i = Some r /\ r = (deleteOne config fname wi).1.

Definition list_start (started : list DirEntry.t) : ListPool :=
  mkListPool (replicate (List.length started) false) [].

(** No byte of [l] is a path separator. *)
Definition slash_free (l : list ascii) : Prop :=
  Forall (fun c => IsPathSeparator c = false) l.

(** A base name that can name a file: not empty, without separator, and
    neither [.] nor [..]. *)
Definition file_name (n : string) : Prop :=
  bytes n <> [] /\ slash_free (bytes n) /\ n <> "." /\ n <> "..".

(** A shared directory as the command line hands it over: a cleaned path
    ([filepath.Join dataDir "uploads"] is one) other than the root and the
    current directory. *)
Definition usable_dir (dir : string) : Prop :=
  filepath.Clean dir = dir /\ dir <> "." /\ dir <> "/".

(** The path of the entry [name] of directory [dir]. *)
Definition entry_path (dir name : string) : string := dir +:+ "/" +:+ name.

(** The name tried in turn [i] for a taken name [stem ++ ext]. *)
Definition suffixed (stem ext : string) (i : nat) : string :=
  stem +:+ "_" +:+ Sprintf_d i +:+ ext.

(* ===================================================================== *)
(** * Facts *)
(* ===================================================================== *)

Ltac munfold :=
  unfold mbind, mret, M_bind, M_ret, bind, ret, trace, get_fs, put_fs, get_now in *.

(** ** The reference runtime is lawful *)

Lemma sink_perm {A} (less : A -> A -> bool) x l : Permutation (sink less x l) (x :: l).
Proof.
  induction l as [|y r IH]; simpl; [done|].
  destruct (less x y); [|done].
  rewrite IH. apply perm_swap.
Qed.

Lemma sink_fold_perm {A} (less : A -> A -> bool) l acc :
  Permutation (fold_left (fun sorted x => sink less x sorted) l acc) (l ++ acc)%list.
Proof.
  revert acc. induction l as [|x l IH]; intros acc; simpl; [done|].
  rewrite IH, sink_perm. by rewrite Permutation_middle.
Qed.

Lemma insertionSort_perm {A} (less : A -> A -> bool) l :
  Permutation (insertionSortLessFunc less l) l.
Proof.
  unfold insertionSortLessFunc.
  rewrite <- Permutation_rev, sink_fold_perm. by rewrite app_nil_r.
Qed.

Lemma sink_stacked {A} (less : A -> A -> bool) x l :
  strict_weak less -> stacked less l -> stacked less (sink less x l).
Proof.
  intros [Hasym Hneg]. unfold stacked.
  induction l as [|y r IH]; intros Hs; simpl.
  - repeat constructor.
  - apply StronglySorted_cons in Hs as [Hy Hr].
    rewrite Forall_forall in Hy.
    destruct (less x y) eqn:Hxy.
    + apply StronglySorted_cons. split; [|by apply IH].
      apply Forall_forall. intros z Hz.
      rewrite sink_perm in Hz.
      apply elem_of_cons in Hz as [->|Hz]; [by apply Hasym|by apply Hy].
    + apply StronglySorted_cons. split.
      * apply Forall_cons. split; [done|].
        apply Forall_forall. intros z Hz. eapply Hneg; [exact Hxy|by apply Hy].
      * apply StronglySorted_cons. by rewrite Forall_forall.
Qed.

Lemma stacked_rev_ordered {A} (less : A -> A -> bool) s :
  stacked less s -> ordered less (rev s).
Proof.
  unfold stacked, ordered. induction s as [|a s IH]; intros Hs; simpl; [constructor|].
  apply StronglySorted_cons in Hs as [Ha Hs].
  apply StronglySorted_app. split_and!.
  - intros e1 e2 He1 ->%list_elem_of_singleton.
    rewrite Forall_forall in Ha. apply Ha.
    by apply list_elem_of_In, in_rev, list_elem_of_In.
  - by apply IH.
  - repeat constructor.
Qed.

Lemma insertionSort_ordered {A} (less : A -> A -> bool) l :
  strict_weak less -> ordered less (insertionSortLessFunc less l).
Proof.
  intros Hsw. unfold insertionSortLessFunc. apply stacked_rev_ordered.
  generalize (@nil A), (SSorted_nil (fun later earlier : A => less later earlier = false)).
  induction l as [|x l IH]; intros acc Hacc; simpl; [done|].
  apply IH. by apply sink_stacked.
Qed.

Lemma refRuntime_lawful : Lawful refRuntime.
Proof.
  split; simpl.
  - intros. apply insertionSort_perm.
  - intros. by apply insertionSort_ordered.
  - done.
Qed.

Lemma newer_strict_weak : strict_weak newer.
Proof. unfold newer. split; intros; lia. Qed.

(** ** Structurally invalid batches *)

Lemma run_sched_idle {P} (step : nat -> P -> M P) sched p w :
  (forall i w', step i p w' = (p, w')) -> run_sched step sched p w = (p, w).
Proof.
  intros Hidle. induction sched as [|i sched IH]; simpl; [done|].
  munfold. by rewrite Hidle.
Qed.

Lemma handleUploadMultiple_unparsable `{Runtime} config sched w :
  handleUploadMultiple config None sched w
  = (Some (JSON 400 (BFailure "Invalid form data")), w).
Proof. done. Qed.

Lemma handleUploadMultiple_no_files `{Runtime} config form sched w :
  default [] (form !! "files") = [] ->
  handleUploadMultiple config (Some form) sched w
  = (Some (JSON 400 (BFailure "No files provided")), w).
Proof. intros Hf. unfold handleUploadMultiple. by rewrite Hf. Qed.

Lemma handleDeleteMultiple_unparsable config sched w :
  handleDeleteMultiple config None sched w
  = (Some (JSON 400 (BError "Invalid request")), w).
Proof. done. Qed.

(** C9 (the batch-delete half fails on the code): [handleUploadMultiple]
    answers 400 to an empty file list, but [handleDeleteMultiple] has no such
    check.  For the body [{"filenames": []}] it starts no task, touches
    nothing and answers 200 with [success = true] and an empty result list,
    whatever the schedule. *)
Theorem C9_empty_delete_batch_is_answered_200 config sched w :
  handleDeleteMultiple config (Some []) sched w
  = (Some (JSON 200 (BDeleteMultiple true [] (mkDeleteSummary 0 0 0))), w).
Proof.
  unfold handleDeleteMultiple. munfold. simpl.
  rewrite run_sched_idle; [done|].
  intros i w'. unfold delete_step. by rewrite lookup_nil.
Qed.

(** ** Path containment *)

Lemma handleDelete_denied config filename w :
  contained config (filepath.Join (UploadsDir config) (filepath.Clean filename)) = false ->
  handleDelete config filename w = (JSON 403 (BError "Access denied"), w).
Proof. intros Hc. unfold handleDelete. by rewrite Hc. Qed.

Lemma handleDownload_denied `{Runtime} config filename arg w :
  contained config (filepath.Join (UploadsDir config) (filepath.Clean filename)) = false ->
  handleDownload config filename arg w = (JSON 403 (BError "Access denied"), w).
Proof. intros Hc. unfold handleDownload. by rewrite Hc. Qed.

Lemma deleteOne_denied config fname w :
  contained config (filepath.Join (UploadsDir config) (filepath.Clean fname)) = false ->
  deleteOne config fname w = (deleteResult.mk fname false "Access denied", w).
Proof. intros Hc. unfold deleteOne. by rewrite Hc. Qed.

(** C1 (fails on the code): the security check compares strings, not path
    elements.  With the shared directory [/srv/uploads], the name
    [../uploads_backup/secret.txt] resolves to a path outside the shared
    directory that still has the directory's name as a string prefix.  The
    batch delete does not answer access denied: it calls [os.Remove] on the
    outside path and the file is gone. *)
Theorem C1_prefix_check_lets_sibling_through :
  let name := "../uploads_backup/secret.txt" in
  let filePath := filepath.Join (UploadsDir Sample.config) (filepath.Clean name) in
  filePath = "/srv/uploads_backup/secret.txt" /\
  lies_inside (UploadsDir Sample.config) filePath = false /\
  contained Sample.config filePath = true /\
  fs Sample.world !! filePath = Some (File Sample.secret 5) /\
  exists w',
    handleDeleteMultiple Sample.config (Some [name]) [0%nat] Sample.world
    = (Some (JSON 200 (BDeleteMultiple true [deleteResult.mk name true ""]
                         (mkDeleteSummary 1 1 0))), w') /\
    calls w' = [CRemove filePath] /\
    fs w' !! filePath = None.
Proof.
  cbv zeta. split_and!; [by vm_compute..|].
  eexists. split_and!; [by vm_compute|by vm_compute..].
Qed.

(** ** Download: the compression switch *)

Lemma QueryBool_false_iff arg :
  QueryBool arg true = false <-> exists v, arg = Some v /\ v ∈ raw_values.
Proof.
  unfold QueryBool, ParseBool, raw_values. split.
  - destruct arg as [v|]; simpl; [|by repeat case_bool_decide].
    repeat case_bool_decide; try done. intros _. by exists v.
  - intros (v & -> & Hv). simpl.
    repeat (apply elem_of_cons in Hv as [->|Hv]; [done|]).
    by apply elem_of_nil in Hv.
Qed.

Lemma handleDownload_default_is_compressed `{Runtime} config filename w :
  handleDownload config filename None w = handleDownload config filename (Some "true") w.
Proof. done. Qed.

(** C10 (the raw half fails on the code): [a.txt] is in the shared
    directory.  Without the [compressed] argument the handler answers as for
    [compressed=true]: the zstd frame with [Content-Encoding: zstd], for which
    the handler sets no [Content-Length] (the framework adds the length of the
    buffered frame on the wire).  With [compressed=false] the handler sets
    [Content-Length] to the file size and registers the file with
    [c.SendStream], but its deferred [file.Close()] runs before the framework
    reads the stream: the registered reader is a closed handle and no byte of
    the file is delivered. *)
Theorem C10_explicit_false_registers_a_closed_file `{Runtime} :
  let get arg := (handleDownload Sample.config "a.txt" arg Sample.tied).1 in
  let frame := zstd_encode Sample.A in
  fs Sample.tied !! "/srv/uploads/a.txt" = Some (File Sample.A 7) /\
  get None = get (Some "true") /\
  status (get None) = 200%nat /\
  delivered (body (get None)) = Some frame /\
  ("Content-Encoding", "zstd") ∈ headers (get None) /\
  ("Content-Length" ∉ (headers (get None)).*1) /\
  ("Content-Length", Sprintf_dZ (Z.of_nat (List.length frame))) ∈ wire_headers (get None) /\
  status (get (Some "false")) = 200%nat /\
  ("Content-Length", "1") ∈ headers (get (Some "false")) /\
  body (get (Some "false")) = BSendStream Closed_file /\
  delivered (body (get (Some "false"))) = None.
Proof.
  cbv beta zeta.
  assert (Hzstd : (handleDownload Sample.config "a.txt" None Sample.tied).1
                  = mkResponse 200
                      [("Content-Disposition",
                        "attachment; filename=" +:+ dquote +:+ "a.txt" +:+ dquote);
                       ("Content-Encoding", "zstd");
                       ("Content-Type", "application/octet-stream")]
                      (BStream (zstd_encode Sample.A))).
  { by vm_compute. }
  assert (Hraw : (handleDownload Sample.config "a.txt" (Some "false") Sample.tied).1
                 = mkResponse 200
                     [("Content-Disposition",
                       "attachment; filename=" +:+ dquote +:+ "a.txt" +:+ dquote);
                      ("Content-Length", "1");
                      ("Content-Type", TypeByExtension (filepath.Ext "a.txt"))]
                     (BSendStream Closed_file)).
  { by vm_compute. }
  rewrite <- handleDownload_default_is_compressed, Hzstd, Hraw.
  split_and!; try done.
  - simpl. apply list_elem_of_further, list_elem_of_here.
  - simpl. intros Hin.
    repeat (apply elem_of_cons in Hin as [Hin|Hin]; [discriminate Hin|]).
    by apply elem_of_nil in Hin.
  - unfold wire_headers. simpl. do 3 apply list_elem_of_further. apply list_elem_of_here.
  - simpl. apply list_elem_of_further, list_elem_of_here.
Qed.

(** ** Byte strings *)

Lemma bytes_str l : bytes (str l) = l.
Proof. apply list_ascii_of_string_of_list_ascii. Qed.

Lemma str_bytes s : str (bytes s) = s.
Proof. apply string_of_list_ascii_of_string. Qed.

Lemma bytes_inj s t : bytes s = bytes t -> s = t.
Proof. intros E. by rewrite <- (str_bytes s), <- (str_bytes t), E. Qed.

Lemma bytes_app s t : bytes (s +:+ t) = (bytes s ++ bytes t)%list.
Proof. induction s as [|c s IH]; simpl; [done|]. unfold bytes in *. simpl. by rewrite IH. Qed.

Lemma str_app l k : str (l ++ k)%list = str l +:+ str k.
Proof. apply bytes_inj. by rewrite bytes_app, !bytes_str. Qed.

Lemma append_inv_tail s t u : s +:+ u = t +:+ u -> s = t.
Proof.
  intros E. apply bytes_inj. apply (f_equal bytes) in E.
  rewrite !bytes_app in E. by apply app_inv_tail in E.
Qed.

Lemma Sprintf_d_inj i j : Sprintf_d i = Sprintf_d j -> i = j.
Proof.
  unfold Sprintf_d. intros E.
  assert (Hnn : forall n, Nat.to_uint n <> Decimal.Nil).
  { intros n. rewrite <- (DecimalNat.Unsigned.of_to n) at 1.
    rewrite DecimalNat.Unsigned.to_of. apply DecimalFacts.unorm_nonnil. }
  apply DecimalNat.Unsigned.to_uint_inj.
  pose proof (DecimalString.NilZero.usu _ (Hnn i)) as Hi.
  pose proof (DecimalString.NilZero.usu _ (Hnn j)) as Hj.
  rewrite E in Hi. congruence.
Qed.

Lemma candidate_inj base ext i j : candidate base ext i = candidate base ext j -> i = j.
Proof.
  unfold candidate. intros E.
  apply String.app_inj in E. apply (String.app_inj "_") in E.
  by apply append_inv_tail, Sprintf_d_inj in E.
Qed.

(** ** The [os] calls *)

Lemma Stat_eq p w :
  os.Stat p w = (bool_decide (is_Some (fs w !! p)), mkWorld (fs w) (now w) (calls w ++ [CStat p])).
Proof. done. Qed.

(** Among [n + 1] distinct candidates one is not in a filesystem of [n]
    entries. *)
Lemma free_candidate (m : gmap string node) base ext :
  exists j, (1 <= j < 1 + S (size m))%nat /\ m !! candidate base ext j = None.
Proof.
  set (cands := map (candidate base ext) (seq 1 (S (size m)))).
  destruct (decide (Forall (fun p => is_Some (m !! p)) cands)) as [Hall|Hex].
  - exfalso.
    assert (Hnd : NoDup cands).
    { apply NoDup_fmap_2; [|apply NoDup_seq]. intros i j. apply candidate_inj. }
    assert (Hsub : (list_to_set cands : gset string) ⊆ dom m).
    { intros p Hp. apply elem_of_list_to_set in Hp. apply elem_of_dom.
      rewrite Forall_forall in Hall. by apply Hall. }
    apply subseteq_size in Hsub.
    rewrite size_list_to_set, size_dom in Hsub by done.
    unfold cands in Hsub. rewrite length_map, length_seq in Hsub. lia.
  - apply not_Forall_Exists in Hex; [|apply _].
    apply Exists_exists in Hex as (p & Hp & Hnone).
    apply list_elem_of_fmap in Hp as (j & -> & Hj).
    apply elem_of_seq in Hj. exists j. split; [lia|].
    by apply eq_None_not_Some.
Qed.

(** The loop leaves at the first free candidate, having only called
    [os.Stat], once on each candidate up to that one. *)
Lemma dupLoop_finds fuel base ext i w :
  (exists j, (i <= j < i + fuel)%nat /\ fs w !! candidate base ext j = None) ->
  exists j, (i <= j < i + fuel)%nat /\
    fs w !! candidate base ext j = None /\
    (forall k, (i <= k < j)%nat -> is_Some (fs w !! candidate base ext k)) /\
    dupLoop fuel base ext i w
    = (candidate base ext j,
       mkWorld (fs w) (now w)
         (calls w ++ map (fun k => CStat (candidate base ext k)) (seq i (S j - i)))).
Proof.
  revert i w. induction fuel as [|fuel IH]; intros i w (j & Hj & Hfree); [lia|].
  simpl. munfold. simpl.
  destruct (fs w !! candidate base ext i) as [n|] eqn:Hi; simpl.
  - destruct (IH (S i) (mkWorld (fs w) (now w) (calls w ++ [CStat (candidate base ext i)])))
      as (j' & Hj' & Hfree' & Hbelow & Hrun).
    { exists j. split; [|done]. destruct (decide (j = i)) as [->|]; [congruence|lia]. }
    exists j'. simpl in Hfree', Hbelow. split_and!; [lia|lia|done| |].
    + intros k Hk. destruct (decide (k = i)) as [->|]; [by rewrite Hi|apply Hbelow; lia].
    + rewrite Hrun. simpl. rewrite <- app_assoc.
      replace (S j' - i)%nat with (S (S j' - S i)) by lia. done.
  - exists i. split_and!; [lia|lia|done|intros; lia|].
    replace (S i - i)%nat with 1%nat by lia. done.
Qed.

(** Name resolution only calls [os.Stat], and the destination it returns
    does not exist when it returns. *)
Lemma resolveName_free config file w :
  exists dest name stats,
    resolveName config file w = ((dest, name), mkWorld (fs w) (now w) (calls w ++ stats)) /\
    fs w !! dest = None /\
    Forall (fun c => exists p, c = CStat p) stats.
Proof.
  unfold resolveName. munfold. simpl.
  set (first := filepath.Join (UploadsDir config) (filepath.Base (FileHeader.Filename file))).
  destruct (fs w !! first) as [n|] eqn:Hfirst; simpl.
  - set (ext := filepath.Ext first).
    set (base := slice_to first (len first - len ext)).
    destruct (dupLoop_finds (S (size (fs w))) base ext 1
                (mkWorld (fs w) (now w) (calls w ++ [CStat first])))
      as (j & Hj & Hfree & _ & Hrun).
    { simpl. apply free_candidate. }
    simpl in *. rewrite Hrun. eexists _, _, _. split_and!.
    + rewrite <- app_assoc. reflexivity.
    + done.
    + apply Forall_cons. split; [by eexists|].
      apply Forall_forall. intros c (k & -> & _)%list_elem_of_fmap. by eexists.
  - eexists _, _, [_]. split_and!; [reflexivity|done|].
    apply Forall_cons. split; [by eexists|constructor].
Qed.

(** ** Saving one upload *)

Lemma writeUpload_copy_fails `{Runtime} file dest name k w :
  FileHeader.Open_err file = false ->
  FileHeader.Copy_err file = Some k ->
  not_a_directory w dest ->
  writeUpload file dest name w
  = (uploadFailure name "Failed to save file",
     mkWorld (delete dest (fs w)) (now w)
       (calls w ++ [CCreate dest;
                    CWrite dest (List.length (take k (FileHeader.Content file)));
                    CRemove dest])).
Proof.
  intros Ho Hc Hnd. unfold writeUpload, os.Create, os.Write, os.Remove.
  rewrite Ho, Hc. munfold. simpl.
  destruct (fs w !! dest) as [[c t|s t]|] eqn:Hd; simpl;
    [|by destruct (Hnd s t)|];
    rewrite !lookup_insert_eq; simpl; rewrite !lookup_insert_eq; simpl;
    rewrite !delete_insert_eq, <- !app_assoc; done.
Qed.



Lemma saveUploadedFile_unfold `{Runtime} config file w :
  saveUploadedFile config file w
  = let '(dn, w1) := resolveName config file w in writeUpload file dn.1 dn.2 w1.
Proof. done. Qed.

(** C7: when [io.Copy] fails, [saveUploadedFile] removes the destination
    before it returns the failure outcome.  Run on its own, the calls it made
    end with create, write, remove on the resolved destination, and the
    filesystem is back to what it was; run at any point of an interleaving
    ([writeUpload] from any world where the create succeeds), nothing is left
    under the destination path and [os.Remove] is the last call. *)
Theorem C7_failed_copy_leaves_no_partial_file `{Runtime} config file k :
  FileHeader.Open_err file = false ->
  FileHeader.Copy_err file = Some k ->
  (forall w, exists dest name stats,
      let partial := List.length (take k (FileHeader.Content file)) in
      saveUploadedFile config file w
      = (uploadFailure name "Failed to save file",
         mkWorld (fs w) (now w)
           (calls w ++ stats ++ [CCreate dest; CWrite dest partial; CRemove dest])) /\
      fs w !! dest = None /\
      Forall (fun c => exists p, c = CStat p) stats) /\
  (forall w dest name, not_a_directory w dest ->
      let '(r, w') := writeUpload file dest name w in
      r = uploadFailure name "Failed to save file" /\
      fs w' !! dest = None /\
      last (calls w') = Some (CRemove dest)).
Proof.
  intros Ho Hc. split.
  - intros w.
    destruct (resolveName_free config file w) as (dest & name & stats & Hres & Hfree & Hst).
    exists dest, name, stats. cbv zeta.
    rewrite saveUploadedFile_unfold, Hres. simpl.
    rewrite (writeUpload_copy_fails _ _ _ k); [|done..|].
    + simpl. rewrite delete_id by done. by rewrite <- app_assoc.
    + intros s t. simpl. by rewrite Hfree.
  - intros w dest name Hnd.
    rewrite (writeUpload_copy_fails _ _ _ k) by done.
    split_and!; [done|apply lookup_delete_eq|].
    simpl. by rewrite last_app.
Qed.

Lemma C7_witness :
  exists name w',
    saveUploadedFile (H := refRuntime) Sample.config
      (Sample.broken_part "a.txt" Sample.B 1) Sample.world
    = (uploadFailure name "Failed to save file", w') /\
    fs w' = fs Sample.world.
Proof.
  destruct (proj1 (C7_failed_copy_leaves_no_partial_file (H := refRuntime) Sample.config
                     (Sample.broken_part "a.txt" Sample.B 1) 1 eq_refl eq_refl)
              Sample.world) as (dest & name & stats & Hsave & _).
  exists name. eexists. split; [exact Hsave|reflexivity].
Defined.



(** ** The batch upload *)

Lemma writeUpload_sized `{Runtime} f d n w : sized f (writeUpload f d n w).1.
Proof.
  unfold sized, writeUpload, os.Create, os.Write, os.Remove. munfold.
  destruct (FileHeader.Open_err f); simpl; [lia|].
  destruct (fs w !! d) as [[c t|s t]|]; simpl; try lia;
    destruct (FileHeader.Copy_err f); simpl;
    rewrite ?lookup_insert_eq; simpl; rewrite ?lookup_insert_eq; simpl; lia.
Qed.

Lemma upload_start_inv `{Runtime} config files : upload_inv config files (upload_start files).
Proof.
  unfold upload_inv, upload_start. simpl. split_and!.
  - by rewrite length_replicate.
  - apply Forall2_same_length_lookup_2; [by rewrite length_replicate|].
    intros i f r _ [-> _]%lookup_replicate. unfold sized. simpl. lia.
  - intros i f Hf. apply lookup_lt_Some in Hf.
    by rewrite lookup_replicate_2.
Qed.

Lemma upload_step_inv `{Runtime} config files idx p w :
  upload_inv config files p -> upload_inv config files (upload_step config files idx p w).1.
Proof.
  intros (Hlen & Hsz & Hinv). unfold upload_step.
  destruct (files !! idx) as [f|] eqn:Hf; [|done].
  destruct (tasks p !! idx) as [[|d n|]|] eqn:Ht; [| |done..].
  - munfold. destruct (resolveName config f w) as [dn w1] eqn:Hres.
    unfold upload_inv. simpl.
    split_and!; [by rewrite length_insert|done|].
    intros i g Hg. destruct (decide (i = idx)) as [->|Hne].
    + rewrite list_lookup_insert_eq by (apply lookup_lt_Some in Ht; lia).
      assert (g = f) as -> by congruence.
      exists w. rewrite Hres. by destruct dn.
    + rewrite list_lookup_insert_ne by done. by apply Hinv.
  - munfold. destruct (writeUpload f d n w) as [r w1] eqn:Hw. simpl.
    pose proof (Hinv idx f Hf) as Hidx. rewrite Ht in Hidx. destruct Hidx as [w0 Hw0].
    unfold upload_inv. simpl.
    split_and!; [by rewrite length_insert| |].
    + rewrite <- (list_insert_id files idx f) by done.
      apply Forall2_insert; [done|]. replace r with (writeUpload f d n w).1 by by rewrite Hw.
      apply writeUpload_sized.
    + intros i g Hg. destruct (decide (i = idx)) as [->|Hne].
      * rewrite list_lookup_insert_eq by (apply lookup_lt_Some in Ht; lia).
        assert (g = f) as -> by congruence.
        exists r. split.
        -- apply list_lookup_insert_eq. apply Forall2_length in Hsz.
           apply lookup_lt_Some in Hg. lia.
        -- exists w0, w. rewrite Hw0. simpl. by rewrite Hw.
      * rewrite !list_lookup_insert_ne by done. by apply Hinv.
Qed.

Lemma run_upload_inv `{Runtime} config files sched p w :
  upload_inv config files p ->
  upload_inv config files (run_sched (upload_step config files) sched p w).1.
Proof.
  revert p w. induction sched as [|i sched IH]; intros p w Hinv; simpl; [done|].
  munfold. destruct (upload_step config files i p w) as [p1 w1] eqn:Hstep.
  apply IH. replace p1 with (upload_step config files i p w).1 by by rewrite Hstep.
  by apply upload_step_inv.
Qed.

Lemma upload_step_length `{Runtime} config files idx p w :
  List.length (tasks (upload_step config files idx p w).1) = List.length (tasks p).
Proof.
  unfold upload_step.
  destruct (files !! idx); [|done].
  destruct (tasks p !! idx) as [[| |]|]; try done; munfold.
  - destruct (resolveName config t w). simpl. by rewrite length_insert.
  - destruct (writeUpload t destPath filename w). simpl. by rewrite length_insert.
Qed.

Lemma upload_step_progress `{Runtime} config files idx p w j :
  List.length (tasks p) = List.length files ->
  (j < List.length files)%nat ->
  progress (tasks (upload_step config files idx p w).1 !! j)
  = if decide (idx = j)
    then Nat.min 2 (S (progress (tasks p !! j)))
    else progress (tasks p !! j).
Proof.
  intros Hlen Hj. unfold upload_step.
  destruct (files !! idx) as [f|] eqn:Hf.
  - assert (Hlt : (idx < List.length (tasks p))%nat) by (apply lookup_lt_Some in Hf; lia).
    destruct (lookup_lt_is_Some_2 _ _ Hlt) as [t Ht]. rewrite Ht.
    destruct t as [|d n|]; munfold.
    + destruct (resolveName config f w). simpl. case_decide as E.
      * subst j. by rewrite list_lookup_insert_eq, Ht.
      * by rewrite list_lookup_insert_ne.
    + destruct (writeUpload f d n w). simpl. case_decide as E.
      * subst j. by rewrite list_lookup_insert_eq, Ht.
      * by rewrite list_lookup_insert_ne.
    + simpl. case_decide as E; [|done]. subst j. by rewrite Ht.
  - simpl. case_decide as E; [|done]. subst j.
    apply lookup_ge_None in Hf. lia.
Qed.

Lemma run_upload_length `{Runtime} config files sched p w :
  List.length (tasks (run_sched (upload_step config files) sched p w).1)
  = List.length (tasks p).
Proof.
  revert p w. induction sched as [|i sched IH]; intros p w; simpl; [done|].
  munfold. destruct (upload_step config files i p w) as [p1 w1] eqn:Hstep.
  rewrite IH. replace p1 with (upload_step config files i p w).1 by by rewrite Hstep.
  apply upload_step_length.
Qed.

Lemma run_upload_progress `{Runtime} config files sched p w j :
  List.length (tasks p) = List.length files ->
  (j < List.length files)%nat ->
  progress (tasks (run_sched (upload_step config files) sched p w).1 !! j)
  = Nat.min 2 (progress (tasks p !! j) + count_occ Nat.eq_dec sched j).
Proof.
  intros Hlen Hj. revert p w Hlen.
  induction sched as [|i sched IH]; intros p w Hlen; cbn [run_sched count_occ].
  - rewrite Nat.add_0_r. munfold. cbn [fst]. destruct (tasks p !! j) as [[| |]|]; done.
  - munfold. destruct (upload_step config files i p w) as [p1 w1] eqn:Hstep.
    assert (Hp1 : p1 = (upload_step config files i p w).1) by by rewrite Hstep.
    rewrite IH by (rewrite Hp1, upload_step_length; done).
    rewrite Hp1, upload_step_progress by done.
    destruct (Nat.eq_dec i j) as [->|Hne].
    + rewrite decide_True by done. lia.
    + rewrite decide_False by done. done.
Qed.

Lemma finished_progress (ts : list task) :
  forallb is_finished ts = true <->
  forall j, (j < List.length ts)%nat -> progress (ts !! j) = 2%nat.
Proof.
  rewrite forallb_forall. split.
  - intros Hall j Hj. destruct (lookup_lt_is_Some_2 _ _ Hj) as [t Ht]. rewrite Ht.
    specialize (Hall t). destruct t; try done;
      by discriminate Hall; apply list_elem_of_In, list_elem_of_lookup; eauto.
  - intros Hall t Ht. apply list_elem_of_In, list_elem_of_lookup in Ht as [j Hj].
    specialize (Hall j (lookup_lt_Some _ _ _ Hj)). rewrite Hj in Hall.
    by destruct t.
Qed.

(** A schedule that gives every goroutine its two turns lets [wg.Wait] return. *)
Lemma run_upload_finishes `{Runtime} config files sched w :
  complete 2 (List.length files) sched ->
  forallb is_finished
    (tasks (run_sched (upload_step config files) sched (upload_start files) w).1) = true.
Proof.
  intros Hc. apply finished_progress. intros j Hj.
  assert (Hs : List.length (tasks (upload_start files)) = List.length files)
    by (simpl; by rewrite length_replicate).
  rewrite run_upload_length, Hs in Hj.
  rewrite run_upload_progress by done.
  specialize (Hc j Hj). lia.
Qed.

(** ** The summary of a batch upload *)

Lemma wrap64_small z : - 2 ^ 63 <= z < 2 ^ 63 -> wrap64 z = z.
Proof. intros Hz. unfold wrap64. rewrite Z.mod_small; lia. Qed.

Lemma successful_bytes_nonneg results :
  Forall (fun r => 0 <= UploadResult.Size r) results -> 0 <= successful_bytes results.
Proof.
  induction 1 as [|r results Hr _ IH]; simpl; [lia|].
  destruct (UploadResult.Success r); lia.
Qed.

Lemma failures_cons r results :
  failures (r :: results)
  = (if UploadResult.Success r then 0 else 1) + failures results.
Proof.
  unfold failures. rewrite filter_cons.
  case_decide as E; destruct (UploadResult.Success r); try done;
    rewrite ?length_cons; lia.
Qed.

Lemma summary_fold results s f t :
  Forall (fun r => 0 <= UploadResult.Size r) results ->
  0 <= t -> t + successful_bytes results < 2 ^ 63 ->
  fold_left summary_step results (s, f, t)
  = (s + (Z.of_nat (List.length results) - failures results),
     f + failures results,
     t + successful_bytes results).
Proof.
  intros Hnn. revert s f t.
  assert (H63 : 0 < 2 ^ 63) by done.
  induction Hnn as [|r results Hr Hnn IH]; intros s f t Ht Hb.
  - cbn. unfold failures. simpl. rewrite !pair_equal_spec; lia.
  - pose proof (successful_bytes_nonneg _ Hnn) as Hrest.
    cbn [fold_left]. rewrite failures_cons. cbn [successful_bytes fold_right] in *.
    fold (successful_bytes results) in *.
    unfold summary_step at 2. destruct (UploadResult.Success r).
    + rewrite wrap64_small by lia. rewrite IH by lia.
      rewrite length_cons. rewrite !pair_equal_spec; lia.
    + rewrite IH by lia. rewrite length_cons. rewrite !pair_equal_spec; lia.
Qed.

Lemma successful_bytes_bounded files results :
  Forall2 sized files results ->
  Forall (fun r => 0 <= UploadResult.Size r) results /\
  successful_bytes results <= request_size files.
Proof.
  induction 1 as [|f r files results [Hlo Hhi] _ [IHnn IHle]]; simpl.
  - split; [constructor|lia].
  - split; [by constructor|]. destruct (UploadResult.Success r); lia.
Qed.

Lemma handleUploadMultiple_unfold `{Runtime} config form files sched w :
  form !! "files" = Some files -> files <> [] ->
  handleUploadMultiple config (Some form) sched w
  = let '(p, w') := run_sched (upload_step config files) sched (upload_start files) w in
    if forallb is_finished (tasks p)
    then (Some (JSON 200 (BUploadMultiple (uploadSummary (List.length files) (results p)).1
                            (results p)
                            (uploadSummary (List.length files) (results p)).2)), w')
    else (None, w').
Proof.
  intros Hf Hne. unfold handleUploadMultiple. rewrite Hf. simpl.
  rewrite bool_decide_eq_false_2 by (by destruct files).
  munfold. fold (upload_start files).
  destruct (run_sched _ _ _ _) as [p w'].
  destruct (forallb is_finished (tasks p)); [|done].
  by destruct (uploadSummary _ _).
Qed.

(** C5: the batch upload answers only once every goroutine has finished
    (a schedule that lets them all finish always gets an answer), and its
    summary is the fold over the [N] outcomes it returns: [total = N],
    [failed = K] for the [K] outcomes without success, [successful = N - K],
    and [total_size] the sum of the sizes of the successful outcomes.  The
    parts of one request fit the body limit, so the [int64] sum cannot wrap. *)
Theorem C5_summary_folds_all_outcomes `{Runtime} config form files sched w :
  form !! "files" = Some files ->
  files <> [] ->
  request_size files <= BodyLimit ->
  let N := Z.of_nat (List.length files) in
  (complete 2 (List.length files) sched ->
   exists resp w', handleUploadMultiple config (Some form) sched w = (Some resp, w')) /\
  (forall resp w',
     handleUploadMultiple config (Some form) sched w = (Some resp, w') ->
     exists p outcomes s,
       run_sched (upload_step config files) sched (upload_start files) w = (p, w') /\
       forallb is_finished (tasks p) = true /\
       outcomes = results p /\
       body resp = BUploadMultiple (failures outcomes =? 0) outcomes s /\
       Z.of_nat (List.length outcomes) = N /\
       total s = N /\
       failed s = failures outcomes /\
       successful s = N - failures outcomes /\
       total_size s = successful_bytes outcomes).
Proof.
  intros Hf Hne Hsize N.
  rewrite (handleUploadMultiple_unfold config form files) by done. split.
  - intros Hc. pose proof (run_upload_finishes config files sched w Hc) as Hfin.
    destruct (run_sched _ _ _ _) as [p w']. simpl in Hfin. rewrite Hfin. eauto.
  - intros resp w' Hrun.
    pose proof (run_upload_inv config files sched (upload_start files) w
                  (upload_start_inv config files)) as (Hlen & Hsz & _).
    destruct (run_sched _ _ _ _) as [p w1]. simpl in Hlen, Hsz.
    destruct (forallb is_finished (tasks p)) eqn:Hfin; [|done].
    injection Hrun as <- <-.
    destruct (successful_bytes_bounded _ _ Hsz) as [Hnn Hle].
    pose proof (successful_bytes_nonneg _ Hnn) as Hge.
    assert (HN : Z.of_nat (List.length (results p)) = N).
    { unfold N. by rewrite <- (Forall2_length _ _ _ Hsz). }
    assert (Hfold : fold_left summary_step (results p) (0, 0, 0)
                    = (N - failures (results p), failures (results p),
                       successful_bytes (results p))).
    { rewrite summary_fold; [|done|lia|unfold BodyLimit in Hsize; lia].
      rewrite HN. rewrite !pair_equal_spec; lia. }
    exists p, (results p), (uploadSummary (List.length files) (results p)).2.
    unfold uploadSummary. rewrite Hfold. simpl. by split_and!.
Qed.

Lemma C5_witness :
  exists resp w',
    handleUploadMultiple (H := refRuntime) Sample.config
      (Some {["files" := [Sample.part "a.txt" Sample.A;
                          Sample.broken_part "b.txt" Sample.B 1]]})
      [1; 0; 1; 0]%nat Sample.world = (Some resp, w').
Proof.
  refine (proj1 (C5_summary_folds_all_outcomes (H := refRuntime) Sample.config
                   {["files" := [Sample.part "a.txt" Sample.A;
                                 Sample.broken_part "b.txt" Sample.B 1]]}
                   _ [1; 0; 1; 0]%nat Sample.world eq_refl _ _) _).
  - discriminate.
  - vm_compute. discriminate.
  - intros i Hi. simpl in Hi.
    destruct i as [|[|i]]; simpl; lia.
Defined.

(** ** The batch delete *)

Lemma deleteOne_Filename config fname w :
  deleteResult.Filename (deleteOne config fname w).1 = fname.
Proof.
  unfold deleteOne. destruct (negb (contained config _)); [done|].
  munfold. destruct (os.Remove _ w) as [[] ?]; done.
Qed.

Lemma delete_start_inv config filenames : delete_inv config filenames (delete_start filenames).
Proof.
  unfold delete_inv, delete_start. simpl. rewrite !length_replicate. split_and!; [done..|].
  intros i fname _ [? _]%lookup_replicate. done.
Qed.

Lemma delete_step_inv config filenames idx p w :
  delete_inv config filenames p ->
  delete_inv config filenames (delete_step config filenames idx p w).1.
Proof.
  intros (Hl1 & Hl2 & Hinv). unfold delete_step.
  destruct (filenames !! idx) as [fname|] eqn:Hf; [|done].
  destruct (deleted p !! idx) as [[|]|] eqn:Hd; [done| |done].
  munfold. destruct (deleteOne config fname w) as [r w1] eqn:Hone.
  unfold delete_inv. simpl. rewrite !length_insert. split_and!; [done..|].
  intros i g Hg Hi. destruct (decide (i = idx)) as [->|Hne].
  - assert (g = fname) as -> by congruence.
    exists r, w. split; [|by rewrite Hone].
    apply list_lookup_insert_eq. apply lookup_lt_Some in Hg. lia.
  - rewrite list_lookup_insert_ne in Hi by done.
    rewrite list_lookup_insert_ne by done. by apply Hinv.
Qed.

Lemma run_delete_inv config filenames sched p w :
  delete_inv config filenames p ->
  delete_inv config filenames (run_sched (delete_step config filenames) sched p w).1.
Proof.
  revert p w. induction sched as [|i sched IH]; intros p w Hinv; simpl; [done|].
  munfold. destruct (delete_step config filenames i p w) as [p1 w1] eqn:Hstep.
  apply IH. replace p1 with (delete_step config filenames i p w).1 by by rewrite Hstep.
  by apply delete_step_inv.
Qed.

(** A goroutine that had a turn has run, and stays run. *)
Lemma delete_step_done config filenames idx p w j :
  List.length (deleted p) = List.length filenames ->
  (j < List.length filenames)%nat ->
  idx = j \/ deleted p !! j = Some true ->
  deleted (delete_step config filenames idx p w).1 !! j = Some true.
Proof.
  intros Hlen Hj Hor. unfold delete_step.
  destruct (filenames !! idx) as [fname|] eqn:Hf.
  - assert (Hlt : (idx < List.length (deleted p))%nat) by (apply lookup_lt_Some in Hf; lia).
    destruct (lookup_lt_is_Some_2 _ _ Hlt) as [b Hb]. rewrite Hb.
    destruct b.
    + simpl. destruct Hor as [->|]; done.
    + munfold. destruct (deleteOne config fname w). simpl.
      destruct (decide (idx = j)) as [->|Hne].
      * by apply list_lookup_insert_eq.
      * rewrite list_lookup_insert_ne by done. by destruct Hor.
  - simpl. destruct Hor as [->|]; [|done]. apply lookup_ge_None in Hf. lia.
Qed.

Lemma run_delete_done config filenames sched p w j :
  List.length (deleted p) = List.length filenames ->
  (j < List.length filenames)%nat ->
  (1 <= count_occ Nat.eq_dec sched j)%nat \/ deleted p !! j = Some true ->
  deleted (run_sched (delete_step config filenames) sched p w).1 !! j = Some true.
Proof.
  intros Hlen Hj. revert p w Hlen.
  induction sched as [|i sched IH]; intros p w Hlen Hor; cbn [run_sched count_occ] in *.
  - destruct Hor as [?|?]; [lia|done].
  - munfold. destruct (delete_step config filenames i p w) as [p1 w1] eqn:Hstep.
    assert (Hp1 : p1 = (delete_step config filenames i p w).1) by by rewrite Hstep.
    assert (Hl1 : List.length (deleted p1) = List.length filenames).
    { pose proof (delete_step_inv config filenames i p w) as Hi. subst p1.
      unfold delete_step. destruct (filenames !! i); [|done].
      destruct (deleted p !! i) as [[|]|]; try done.
      munfold. destruct (deleteOne config s w). simpl. by rewrite length_insert. }
    apply IH; [done|].
    destruct (Nat.eq_dec i j) as [->|Hne].
    + right. subst p1. apply delete_step_done; auto.
    + destruct Hor as [?|Hd]; [by left|]. right. subst p1. apply delete_step_done; auto.
Qed.

Lemma run_delete_finishes config filenames sched w :
  complete 1 (List.length filenames) sched ->
  forallb id (deleted (run_sched (delete_step config filenames) sched
                         (delete_start filenames) w).1) = true.
Proof.
  intros Hc. apply forallb_forall. intros b Hb.
  apply list_elem_of_In, list_elem_of_lookup in Hb as [j Hj].
  pose proof (run_delete_inv config filenames sched (delete_start filenames) w
                (delete_start_inv config filenames)) as (Hlen & _).
  assert (Hjn : (j < List.length filenames)%nat) by (apply lookup_lt_Some in Hj; lia).
  rewrite (run_delete_done config filenames sched) in Hj.
  - by injection Hj as <-.
  - simpl. by rewrite length_replicate.
  - done.
  - left. by apply Hc.
Qed.

(** C6: whatever the schedule of the goroutines, the answer of a batch
    carries one outcome per input, and the outcome at position [i] is the one
    produced by the goroutine of input [i]: for an upload a result of saving
    part [i], for a delete the result of deleting name [i] (which repeats that
    name).  Every schedule in which all goroutines take their steps gets such
    an answer. *)
Theorem C6_outcomes_sit_at_input_positions `{Runtime} config :
  (forall form files sched w,
     form !! "files" = Some files -> files <> [] ->
     (complete 2 (List.length files) sched ->
      exists resp w', handleUploadMultiple config (Some form) sched w = (Some resp, w')) /\
     (forall resp w',
        handleUploadMultiple config (Some form) sched w = (Some resp, w') ->
        exists ok outcomes s,
          body resp = BUploadMultiple ok outcomes s /\
          List.length outcomes = List.length files /\
          forall i f, files !! i = Some f ->
            exists r, outcomes !! i = Some r /\ outcome_of config f r)) /\
  (forall filenames sched w,
     (complete 1 (List.length filenames) sched ->
      exists resp w', handleDeleteMultiple config (Some filenames) sched w = (Some resp, w')) /\
     (forall resp w',
        handleDeleteMultiple config (Some filenames) sched w = (Some resp, w') ->
        exists ok outcomes s,
          body resp = BDeleteMultiple ok outcomes s /\
          List.length outcomes = List.length filenames /\
          forall i fname, filenames !! i = Some fname ->
            exists r wi, outcomes !! i = Some r /\
              r = (deleteOne config fname wi).1 /\
              deleteResult.Filename r = fname)).
Proof.
  split.
  - intros form files sched w Hf Hne.
    rewrite (handleUploadMultiple_unfold config form files) by done. split.
    + intros Hc. pose proof (run_upload_finishes config files sched w Hc) as Hfin.
      destruct (run_sched _ _ _ _) as [p w']. simpl in Hfin. rewrite Hfin. eauto.
    + intros resp w' Hrun.
      pose proof (run_upload_inv config files sched (upload_start files) w
                    (upload_start_inv config files)) as (Hlen & Hsz & Hinv).
      destruct (run_sched _ _ _ _) as [p w1]. simpl in Hlen, Hsz, Hinv.
      destruct (forallb is_finished (tasks p)) eqn:Hfin; [|done].
      injection Hrun as <- <-. eexists _, _, _. split; [reflexivity|].
      split; [by rewrite <- (Forall2_length _ _ _ Hsz)|].
      intros i f Hi. specialize (Hinv i f Hi).
      pose proof (proj1 (finished_progress _) Hfin i) as Hp.
      rewrite Hlen in Hp. specialize (Hp (lookup_lt_Some _ _ _ Hi)).
      destruct (tasks p !! i) as [[| |]|]; try done.
  - intros filenames sched w. unfold handleDeleteMultiple. munfold.
    fold (delete_start filenames). split.
    + intros Hc. pose proof (run_delete_finishes config filenames sched w Hc) as Hfin.
      destruct (run_sched _ _ _ _) as [p w']. simpl in Hfin. rewrite Hfin. eauto.
    + intros resp w' Hrun.
      pose proof (run_delete_inv config filenames sched (delete_start filenames) w
                    (delete_start_inv config filenames)) as (Hl1 & Hl2 & Hinv).
      destruct (run_sched _ _ _ _) as [p w1]. simpl in Hl1, Hl2, Hinv.
      destruct (forallb id (deleted p)) eqn:Hfin; [|done].
      injection Hrun as <- <-. eexists _, _, _. split; [reflexivity|].
      split; [done|].
      intros i fname Hi.
      assert (Hd : deleted p !! i = Some true).
      { assert (Hlt : (i < List.length (deleted p))%nat)
          by (apply lookup_lt_Some in Hi; lia).
        destruct (lookup_lt_is_Some_2 _ _ Hlt) as [b Hb]. rewrite Hb. f_equal.
        rewrite forallb_forall in Hfin.
        apply (Hfin b). apply list_elem_of_In, list_elem_of_lookup. eauto. }
      destruct (Hinv i fname Hi Hd) as (r & wi & Hr & ->).
      eexists _, wi. split_and!; [done..|]. apply deleteOne_Filename.
Qed.

Lemma C6_witness :
  exists resp w',
    handleDeleteMultiple Sample.config (Some ["b.txt"; "missing"; "a.txt"])
      [2; 0; 1]%nat Sample.tied = (Some resp, w').
Proof.
  refine (proj1 (proj2 (C6_outcomes_sit_at_input_positions (H := refRuntime) Sample.config)
                   ["b.txt"; "missing"; "a.txt"] [2; 0; 1]%nat Sample.tied) _).
  intros i Hi. simpl in Hi. destruct i as [|[|[|i]]]; simpl; lia.
Defined.

(** ** Listing *)

Lemma list_step_length `{Runtime} config entries idx p w :
  List.length (listed (list_step config entries idx p w).1) = List.length (listed p).
Proof.
  unfold list_step. destruct (entries !! idx); [|done].
  destruct (listed p !! idx) as [[|]|]; try done.
  munfold. destruct (osdir.Info _ _ w) as [[n|] w1]; simpl; by rewrite length_insert.
Qed.

Lemma list_step_done `{Runtime} config entries idx p w j :
  List.length (listed p) = List.length entries ->
  (j < List.length entries)%nat ->
  idx = j \/ listed p !! j = Some true ->
  listed (list_step config entries idx p w).1 !! j = Some true.
Proof.
  intros Hlen Hj Hor. unfold list_step.
  destruct (entries !! idx) as [e|] eqn:He.
  - assert (Hlt : (idx < List.length (listed p))%nat) by (apply lookup_lt_Some in He; lia).
    destruct (lookup_lt_is_Some_2 _ _ Hlt) as [b Hb]. rewrite Hb.
    destruct b.
    + simpl. destruct Hor as [->|]; done.
    + munfold. destruct (osdir.Info _ _ w) as [[n|] w1]; simpl;
        (destruct (decide (idx = j)) as [->|Hne];
         [by apply list_lookup_insert_eq
         |rewrite list_lookup_insert_ne by done; by destruct Hor]).
  - simpl. destruct Hor as [->|]; [|done]. apply lookup_ge_None in He. lia.
Qed.

Lemma run_list_done `{Runtime} config entries sched p w j :
  List.length (listed p) = List.length entries ->
  (j < List.length entries)%nat ->
  (1 <= count_occ Nat.eq_dec sched j)%nat \/ listed p !! j = Some true ->
  listed (run_sched (list_step config entries) sched p w).1 !! j = Some true.
Proof.
  intros Hlen Hj. revert p w Hlen.
  induction sched as [|i sched IH]; intros p w Hlen Hor; cbn [run_sched count_occ] in *.
  - destruct Hor as [?|?]; [lia|done].
  - munfold. destruct (list_step config entries i p w) as [p1 w1] eqn:Hstep.
    assert (Hp1 : p1 = (list_step config entries i p w).1) by by rewrite Hstep.
    apply IH; [subst p1; by rewrite list_step_length|].
    destruct (Nat.eq_dec i j) as [->|Hne].
    + right. subst p1. apply list_step_done; auto.
    + destruct Hor as [?|Hd]; [by left|]. right. subst p1. apply list_step_done; auto.
Qed.

Lemma run_list_length `{Runtime} config entries sched p w :
  List.length (listed (run_sched (list_step config entries) sched p w).1)
  = List.length (listed p).
Proof.
  revert p w. induction sched as [|i sched IH]; intros p w; simpl; [done|].
  munfold. destruct (list_step config entries i p w) as [p1 w1] eqn:Hstep.
  rewrite IH. replace p1 with (list_step config entries i p w).1 by by rewrite Hstep.
  apply list_step_length.
Qed.

Lemma run_list_finishes `{Runtime} config entries sched w :
  complete 1 (List.length entries) sched ->
  forallb id (listed (run_sched (list_step config entries) sched (list_start entries) w).1)
  = true.
Proof.
  intros Hc. apply forallb_forall. intros b Hb.
  apply list_elem_of_In, list_elem_of_lookup in Hb as [j Hj].
  assert (Hs : List.length (listed (list_start entries)) = List.length entries)
    by (simpl; by rewrite length_replicate).
  assert (Hjn : (j < List.length entries)%nat).
  { apply lookup_lt_Some in Hj. by rewrite run_list_length, Hs in Hj. }
  rewrite (run_list_done config entries sched) in Hj; [by injection Hj as <-|done..|].
  left. by apply Hc.
Qed.

Lemma ordered_newer_descending l : ordered newer l -> descending l.
Proof.
  unfold ordered, descending. induction 1 as [|a l _ IH Ha]; constructor; [done|].
  eapply Forall_impl; [exact Ha|]. unfold newer. intros b Hb. simpl in Hb. lia.
Qed.

(** C8 (as amended): every sequence the listing returns is in descending
    order of modification time, for every order in which the goroutines
    append their entries and for every sort that meets the contract of
    [sort.Slice]; a schedule that lets every goroutine run gets an answer.
    Nothing fixes the order among entries of equal modification time: it is
    the order left by the completion order and the unstable sort. *)
Theorem C8_listing_is_descending `{rt : Runtime} config sched w :
  Lawful rt ->
  (forall entries,
     (osdir.ReadDir (UploadsDir config) w).1 = Some entries ->
     complete 1 (List.length (filter (fun e => visible e = true) entries)) sched ->
     exists resp w', handleListFiles config sched w = (Some resp, w')) /\
  (forall resp w',
     handleListFiles config sched w = (Some resp, w') ->
     exists l, resp = JSON 200 (BFiles l) /\ descending l).
Proof.
  intros Hlaw. unfold handleListFiles. munfold.
  destruct (osdir.ReadDir (UploadsDir config) w) as [[entries|] w0] eqn:Hread; simpl.
  - fold (list_start (filter (fun e => visible e = true) entries)). split.
    + intros entries' [= <-] Hc.
      pose proof (run_list_finishes config _ sched w0 Hc) as Hfin.
      destruct (run_sched _ _ _ _) as [p w1]. simpl in Hfin. rewrite Hfin. eauto.
    + intros resp w' Hrun. destruct (run_sched _ _ _ _) as [p w1].
      destruct (forallb id (listed p)); [|done].
      injection Hrun as <- <-. eexists. split; [reflexivity|].
      apply ordered_newer_descending, (sort_Slice_ordered _ Hlaw), newer_strict_weak.
  - split; [done|]. intros resp w' [= <- <-]. exists []. split; [done|constructor].
Qed.

Lemma C8_witness :
  exists resp w',
    handleListFiles (H := refRuntime) Sample.config [1; 0]%nat Sample.tied
    = (Some resp, w') /\
    exists l, resp = JSON 200 (BFiles l) /\ descending l.
Proof.
  destruct (C8_listing_is_descending (rt := refRuntime) Sample.config [1; 0]%nat
              Sample.tied refRuntime_lawful) as [_ Hsorted].
  eexists _, _. split; [vm_compute; reflexivity|].
  eapply Hsorted. vm_compute. reflexivity.
Defined.

(** C8 (as stated, refuted): [a.txt] and [b.txt] carry the same
    modification time.  Over the same unchanged directory, the listing
    returns them in the order in which their goroutines appended them: one
    call answers [a.txt; b.txt], another [b.txt; a.txt]. *)
Lemma C8_tied_entries_follow_completion_order :
  let names (r : option Response * World) :=
    match r.1 with
    | Some (mkResponse _ _ (BFiles l)) => map FileInfo.Name l
    | _ => []
    end in
  names (handleListFiles (H := refRuntime) Sample.config [0; 1]%nat Sample.tied)
    = ["a.txt"; "b.txt"] /\
  names (handleListFiles (H := refRuntime) Sample.config [1; 0]%nat Sample.tied)
    = ["b.txt"; "a.txt"] /\
  fs (handleListFiles (H := refRuntime) Sample.config [0; 1]%nat Sample.tied).2
    = fs Sample.tied.
Proof. cbv zeta. split_and!; by vm_compute. Qed.

(** ** Names that are not file names *)

(** C4 (fails on the code): the base name of [..] is [..] itself, and
    joining it to the shared directory gives the parent directory, which
    exists; the suffix is then put on the parent's path.  The part is saved as
    [/srv_1], beside the parent and outside the shared directory, under the
    reported name [srv_1]. *)
Theorem C4_dotdot_is_resolved_outside_the_directory :
  let file := Sample.part ".." Sample.A in
  filepath.Base (FileHeader.Filename file) = ".." /\
  filepath.Join (UploadsDir Sample.config) ".." = "/srv" /\
  (resolveName Sample.config file Sample.world).1 = ("/srv_1", "srv_1") /\
  lies_inside (UploadsDir Sample.config) "/srv_1" = false /\
  exists r w',
    saveUploadedFile (H := refRuntime) Sample.config file Sample.world = (r, w') /\
    UploadResult.Success r = true /\
    UploadResult.Filename r = "srv_1" /\
    fs w' !! "/srv_1" = Some (File Sample.A 100) /\
    calls w' = [CStat "/srv"; CStat "/srv_1"; CCreate "/srv_1"; CWrite "/srv_1" 1].
Proof.
  cbv zeta. split_and!; [by vm_compute..|].
  eexists _, _. split_and!; [vm_compute; reflexivity|by vm_compute..].
Qed.

(** C3 (fails on the code, by the defect shown for C4): the part named
    [..] with content [A] is reported as saved under [srv_1], but it was
    written to [/srv_1]; downloading [srv_1], compressed or not, answers 404
    instead of [A]. *)
Theorem C3_dotdot_upload_cannot_be_downloaded :
  let file := Sample.part ".." Sample.A in
  exists r w1,
    saveUploadedFile (H := refRuntime) Sample.config file Sample.world = (r, w1) /\
    UploadResult.Success r = true /\
    (handleDownload (H := refRuntime) Sample.config (UploadResult.Filename r)
       (Some "false") w1).1 = JSON 404 (BError "File not found") /\
    (handleDownload (H := refRuntime) Sample.config (UploadResult.Filename r)
       None w1).1 = JSON 404 (BError "File not found").
Proof.
  cbv zeta. eexists _, _. split_and!; [vm_compute; reflexivity|by vm_compute..].
Qed.

(** Uploads of [a.txt] in strict sequence are saved as [a.txt], [a_1.txt]
    and [a_2.txt]. *)
Example sequential_uploads_of_a_txt :
  let up c w := saveUploadedFile (H := refRuntime) Sample.config (Sample.part "a.txt" c) w in
  let '(r1, w1) := up Sample.A Sample.world in
  let '(r2, w2) := up Sample.B w1 in
  let '(r3, w3) := up Sample.A w2 in
  map UploadResult.Filename [r1; r2; r3] = ["a.txt"; "a_1.txt"; "a_2.txt"] /\
  fs w3 !! "/srv/uploads/a.txt" = Some (File Sample.A 100) /\
  fs w3 !! "/srv/uploads/a_1.txt" = Some (File Sample.B 100) /\
  fs w3 !! "/srv/uploads/a_2.txt" = Some (File Sample.A 100).
Proof. by vm_compute. Qed.
Example Clean_examples :
  filepath.Clean "" = "." /\
  filepath.Clean "/srv/uploads/../x" = "/srv/x" /\
  filepath.Clean "a//b/./c/.." = "a/b" /\
  filepath.Clean "../../a/../.." = "../../.." /\
  filepath.Clean "/../a" = "/a" /\
  filepath.Clean "/" = "/" /\
  filepath.Clean "a/.." = "." /\
  filepath.Clean "a/b/" = "a/b".
Proof. repeat split; reflexivity. Qed.

Example Base_examples :
  filepath.Base "" = "." /\
  filepath.Base "/a/b.txt" = "b.txt" /\
  filepath.Base "a/b///" = "b" /\
  filepath.Base "///" = "/" /\
  filepath.Base ".." = ".." /\
  filepath.Base "x/../.." = "..".
Proof. repeat split; reflexivity. Qed.

Example Ext_examples :
  filepath.Ext "/srv/up.d/a.tar.gz" = ".gz" /\
  filepath.Ext "/srv/up.d/README" = "" /\
  filepath.Ext ".bashrc" = ".bashrc" /\
  filepath.Ext "a." = ".".
Proof. repeat split; reflexivity. Qed.

Example Join_examples :
  filepath.Join "/srv/uploads" "a.txt" = "/srv/uploads/a.txt" /\
  filepath.Join "/srv/uploads" "../uploads2/x" = "/srv/uploads2/x" /\
  filepath.Join "" "" = "" /\
  filepath.Join "uploads" "." = "uploads" /\
  Sprintf_d 12 = "12" /\ Sprintf_d 0 = "0".
Proof. repeat split; reflexivity. Qed.


(* ===================================================================== *)
(** * Further facts about the handlers *)
(* ===================================================================== *)

(** ** Single delete *)

(** X3: a delete that passes the containment check makes exactly one
    call, [os.Remove] on the joined path; it answers 200 exactly when that
    entry was there to remove (a file, or an empty directory) and 404
    otherwise, and no other entry of the filesystem changes. *)
Theorem handleDelete_removes_only_the_named_entry config filename w :
  let filePath := filepath.Join (UploadsDir config) (filepath.Clean filename) in
  contained config filePath = true ->
  let '(resp, w') := handleDelete config filename w in
  calls w' = (calls w ++ [CRemove filePath])%list /\
  (forall p, p <> filePath -> fs w' !! p = fs w !! p) /\
  ((resp = JSON 200 (BDeleted filename) /\ is_Some (fs w !! filePath) /\
    fs w' !! filePath = None) \/
   (resp = JSON 404 (BError "File not found") /\ fs w' = fs w)).
Proof.
  intros filePath Hc. unfold handleDelete. fold filePath. rewrite Hc. simpl.
  unfold os.Remove. munfold. simpl.
  destruct (fs w !! filePath) as [[c t|s t]|] eqn:Hp; simpl.
  - split_and!; [done|by intros; apply lookup_delete_ne|].
    left. split_and!; [done|by eexists|apply lookup_delete_eq].
  - destruct (children (fs w) filePath); simpl.
    + split_and!; [done|by intros; apply lookup_delete_ne|].
      left. split_and!; [done|by eexists|apply lookup_delete_eq].
    + split_and!; [done|done|by right].
  - split_and!; [done|done|by right].
Qed.

Lemma handleDelete_witness :
  exists w',
    handleDelete Sample.config "a.txt" Sample.tied = (JSON 200 (BDeleted "a.txt"), w') /\
    fs w' !! "/srv/uploads/b.txt" = Some (File Sample.B 7).
Proof.
  pose proof (handleDelete_removes_only_the_named_entry Sample.config "a.txt" Sample.tied
                eq_refl) as Hdel.
  destruct (handleDelete Sample.config "a.txt" Sample.tied) as [resp w'] eqn:Hrun.
  destruct Hdel as (_ & Hframe & _).
  exists w'. split.
  - revert Hrun. vm_compute. by intros [= <- <-].
  - by rewrite Hframe.
Defined.

(** ** The summary of a batch delete *)

Lemma count_successful_fold results n :
  fold_left (fun n r => if deleteResult.Success r then n + 1 else n) results n
  = n + Z.of_nat (List.length (filter (fun r => deleteResult.Success r = true) results)).
Proof.
  revert n. induction results as [|r results IH]; intros n; simpl; [lia|].
  rewrite IH, filter_cons.
  case_decide as E; destruct (deleteResult.Success r); try done;
    rewrite ?length_cons; lia.
Qed.

Lemma filter_keeps_all {A} (P : A -> Prop) `{forall x, Decision (P x)} (l : list A) :
  List.length (filter P l) = List.length l -> Forall P l.
Proof.
  induction l as [|a l IH]; [constructor|].
  rewrite filter_cons. pose proof (length_filter P l) as Hle.
  case_decide; rewrite ?length_cons; intros Hlen.
  - constructor; [done|]. apply IH. lia.
  - lia.
Qed.

(** X4: in the answer of a batch delete, [total] is the number of names
    sent, [successful] the number of outcomes with success, [failed] the rest,
    and the [success] flag is set exactly when no outcome failed. *)
Theorem handleDeleteMultiple_summary config filenames sched w resp w' :
  handleDeleteMultiple config (Some filenames) sched w = (Some resp, w') ->
  exists ok outcomes s,
    body resp = BDeleteMultiple ok outcomes s /\
    let succeeded := filter (fun r => deleteResult.Success r = true) outcomes in
    dtotal s = Z.of_nat (List.length filenames) /\
    dsuccessful s = Z.of_nat (List.length succeeded) /\
    dfailed s = Z.of_nat (List.length outcomes - List.length succeeded) /\
    dsuccessful s + dfailed s = dtotal s /\
    (ok = true <-> Forall (fun r => deleteResult.Success r = true) outcomes).
Proof.
  unfold handleDeleteMultiple. munfold. fold (delete_start filenames). intros Hrun.
  pose proof (run_delete_inv config filenames sched (delete_start filenames) w
                (delete_start_inv config filenames)) as (_ & Hlen & _).
  destruct (run_sched _ _ _ _) as [p w1]. simpl in Hlen.
  destruct (forallb id (deleted p)); [|done].
  injection Hrun as <- <-. eexists _, _, _. split; [reflexivity|]. simpl.
  unfold count_successful. rewrite count_successful_fold, Z.add_0_l.
  pose proof (length_filter (fun r => deleteResult.Success r = true) (dresults p)) as Hle.
  split_and!; [done|done|lia|lia|].
  rewrite Z.eqb_eq, <- Hlen. split.
  - intros Heq. apply Nat2Z.inj in Heq.
    by apply (filter_keeps_all (fun r => deleteResult.Success r = true)).
  - intros Hall. f_equal. clear Hle Hlen.
    induction Hall as [|r l Hr _ IH]; [done|].
    rewrite filter_cons, decide_True by done. by rewrite !length_cons, IH.
Qed.

Lemma handleDeleteMultiple_summary_witness :
  exists ok outcomes s w',
    handleDeleteMultiple Sample.config (Some ["a.txt"; "missing"; "b.txt"])
      [0; 1; 2]%nat Sample.tied
    = (Some (JSON 200 (BDeleteMultiple ok outcomes s)), w') /\
    dsuccessful s = 2 /\ dfailed s = 1 /\ ok = false.
Proof.
  destruct (handleDeleteMultiple Sample.config (Some ["a.txt"; "missing"; "b.txt"])
              [0; 1; 2]%nat Sample.tied) as [resp w'] eqn:Hrun.
  assert (Hsome : exists r, resp = Some r) by (revert Hrun; vm_compute; intros [= <- _]; eauto).
  destruct Hsome as [r ->].
  destruct (handleDeleteMultiple_summary _ _ _ _ _ _ Hrun) as (ok & outcomes & s & Hb & _).
  revert Hrun Hb. vm_compute. intros [= <- <-] [= <- <- <-].
  eexists _, _, _, _. split; [reflexivity|]. by split_and!.
Defined.

(** ** The containment check accepts everything inside *)

Lemma hasPrefix_app s p : hasPrefix (s ++ p)%list s = true.
Proof.
  induction s as [|c s IH]; simpl; [by destruct p|].
  by rewrite Ascii.eqb_refl.
Qed.

Lemma hasPrefix_trans s p q : hasPrefix s p = true -> hasPrefix p q = true -> hasPrefix s q = true.
Proof.
  revert s p. induction q as [|c q IH]; intros s p Hsp Hpq; [by destruct s|].
  destruct p as [|b p]; [done|]. destruct s as [|a s]; [done|].
  simpl in *. apply andb_prop in Hsp as [Hab Hsp]. apply andb_prop in Hpq as [Hbc Hpq].
  apply Ascii.eqb_eq in Hab as ->. rewrite Hbc. simpl. by apply (IH s p).
Qed.

Lemma hasPrefix_refl s : hasPrefix s s = true.
Proof. induction s as [|c s IH]; simpl; [done|]. by rewrite Ascii.eqb_refl. Qed.

(** X5: the security check never turns away a path that is the shared
    directory or lies below it: whatever it rejects is outside.  (The converse
    fails, see C1.) *)
Theorem contained_accepts_paths_inside config filePath :
  lies_inside (UploadsDir config) filePath = true -> contained config filePath = true.
Proof.
  unfold lies_inside, contained, HasPrefix. intros [Heq|Hpre]%orb_prop.
  - apply bool_decide_eq_true in Heq as ->. apply hasPrefix_refl.
  - eapply hasPrefix_trans; [exact Hpre|]. rewrite bytes_app. apply hasPrefix_app.
Qed.

Lemma contained_accepts_paths_inside_witness :
  contained Sample.config "/srv/uploads/a.txt" = true.
Proof. exact (contained_accepts_paths_inside Sample.config "/srv/uploads/a.txt" eq_refl). Defined.

(** ** formatSize *)

Lemma formatSize_loop_spec fuel size div exp :
  div = 1024 ^ (Z.of_nat exp + 1) ->
  div <= size ->
  size / div < 1024 ^ Z.of_nat fuel ->
  let '(div', exp') := formatSize_loop fuel (size / div) div exp in
  div' = 1024 ^ (Z.of_nat exp' + 1) /\ div' <= size < 1024 * div'.
Proof.
  revert div exp. induction fuel as [|fuel IH]; intros div exp Hdiv Hle Hn.
  - assert (0 < div) by (subst div; apply Z.pow_pos_nonneg; lia).
    assert (1 <= size / div) by (apply Z.div_le_lower_bound; lia).
    simpl in Hn. lia.
  - assert (Hpos : 0 < div) by (subst div; apply Z.pow_pos_nonneg; lia).
    cbn [formatSize_loop]. destruct (size / div >=? 1024) eqn:Hge.
    + rewrite Z.geb_leb in Hge. apply Z.leb_le in Hge.
      rewrite Z.quot_div_nonneg by (try apply Z.div_pos; lia).
      rewrite Z.div_div by lia.
      apply IH.
      * rewrite Nat2Z.inj_succ, <- Z.add_1_r, Z.pow_add_r by lia. subst div. lia.
      * assert (1024 * div <= size); [|lia].
        pose proof (Z.mul_div_le size div Hpos). nia.
      * rewrite <- Z.div_div by lia.
        apply Z.div_lt_upper_bound; [lia|].
        rewrite Nat2Z.inj_succ, Z.pow_succ_r in Hn by lia. lia.
    + rewrite Z.geb_leb in Hge. apply Z.leb_gt in Hge. split; [done|]. split; [done|].
      pose proof (Z.mod_pos_bound size div Hpos).
      pose proof (Z.div_mod size div). nia.
Qed.

(** X6: for a size of at least 1024 bytes, [formatSize] divides by the
    largest power of 1024 that does not exceed the size, so the exact quotient
    it hands to [%.1f] is at least 1 and below 1024 (printed with one decimal
    it is rounded, and can read 1024.0); the unit index stays inside
    ["KMGTPE"] and [div] stays inside [int64] for every [int64] size.  Below
    1024 the size is printed as it is, in bytes. *)
Theorem formatSize_picks_the_unit `{Runtime} size :
  (size < 1024 -> formatSize size = Sprintf_dZ size +:+ " B") /\
  (1024 <= size < 2 ^ 63 ->
   exists div exp c,
     formatSize_loop 7 (Z.quot size 1024) 1024 0 = (div, exp) /\
     div = 1024 ^ (Z.of_nat exp + 1) /\
     div <= size < 1024 * div /\
     div < 2 ^ 63 /\
     String.get exp "KMGTPE" = Some c /\
     formatSize size = Sprintf_f1 size div +:+ " " +:+ String c "" +:+ "B").
Proof.
  unfold formatSize. split.
  - intros Hlt. by rewrite (proj2 (Z.ltb_lt _ _) Hlt).
  - intros [Hlo Hhi]. rewrite (proj2 (Z.ltb_ge _ _) Hlo).
    rewrite Z.quot_div_nonneg by lia.
    pose proof (formatSize_loop_spec 7 size 1024 0 eq_refl Hlo) as Hspec.
    destruct (formatSize_loop 7 (size / 1024) 1024 0) as [div exp].
    destruct Hspec as (Hdiv & Hle & Hlt).
    { apply Z.div_lt_upper_bound; [lia|].
      change (2 ^ 63) with 9223372036854775808 in Hhi.
      change (1024 ^ Z.of_nat 7) with 1180591620717411303424. lia. }
    assert (Hexp : (exp <= 5)%nat).
    { destruct (decide (exp <= 5)%nat); [done|]. exfalso.
      assert (1024 ^ 7 <= 1024 ^ (Z.of_nat exp + 1)) by (apply Z.pow_le_mono_r; lia).
      change (2 ^ 63) with 9223372036854775808 in Hhi.
      change (1024 ^ 7) with 1180591620717411303424 in *. lia. }
    assert (Hget : exists c, String.get exp "KMGTPE" = Some c).
    { do 6 (destruct exp as [|exp]; [by eexists|]). lia. }
    destruct Hget as [c Hc]. exists div, exp, c. rewrite Hc.
    split_and!; [done..|lia|done|done].
Qed.

Lemma formatSize_witness :
  exists div exp c,
    formatSize_loop 7 (Z.quot 5000000 1024) 1024 0 = (div, exp) /\
    div = 1048576 /\ String.get exp "KMGTPE" = Some c /\ c = "M"%char.
Proof.
  destruct (proj2 (formatSize_picks_the_unit (H := refRuntime) 5000000))
    as (div & exp & c & Hloop & _ & _ & _ & Hc & _); [done|].
  exists div, exp, c. revert Hloop Hc. vm_compute.
  intros [= <- <-] [= <-]. done.
Defined.

(** ** Lexical path facts *)

Lemma len_bytes s : len s = List.length (bytes s).
Proof. unfold len. induction s as [|c s IH]; simpl; [done|]. by rewrite IH. Qed.

Lemma elements_nonempty l : filepath.elements l <> [].
Proof.
  destruct l as [|c l]; simpl; [done|].
  destruct (IsPathSeparator c); [done|]. by destruct (filepath.elements l).
Qed.

Lemma elements_app_sep l r :
  filepath.elements (l ++ "/"%char :: r) = (filepath.elements l ++ filepath.elements r)%list.
Proof.
  induction l as [|c l IH]; simpl; [done|].
  destruct (IsPathSeparator c); [by rewrite IH|].
  rewrite IH. pose proof (elements_nonempty l).
  by destruct (filepath.elements l).
Qed.

Lemma elements_slash_free e : slash_free e -> filepath.elements e = [e].
Proof.
  induction 1 as [|c e Hc _ IH]; simpl; [done|]. by rewrite Hc, IH.
Qed.

Lemma clean_step_push rooted out e :
  e <> [] -> e <> filepath.dot -> e <> filepath.dotdot ->
  filepath.clean_step rooted out e = e :: out.
Proof.
  intros H1 H2 H3. unfold filepath.clean_step, filepath.is_dot, filepath.is_dotdot.
  by rewrite !bool_decide_eq_false_2.
Qed.

Lemma clean_step_nonempty rooted out e :
  Forall (fun x => x <> []) out -> Forall (fun x => x <> []) (filepath.clean_step rooted out e).
Proof.
  intros Hout. unfold filepath.clean_step.
  case_bool_decide as He; [done|].
  destruct (filepath.is_dot e); [done|].
  destruct (filepath.is_dotdot e).
  - destruct out as [|top rest]; [destruct rooted; [done|by repeat constructor]|].
    destruct (filepath.is_dotdot top).
    + destruct rooted; [done|by constructor].
    + by apply Forall_cons in Hout as [_ ?].
  - by constructor.
Qed.

Lemma clean_fold_nonempty rooted es out :
  Forall (fun x => x <> []) out ->
  Forall (fun x => x <> []) (fold_left (filepath.clean_step rooted) es out).
Proof.
  revert out. induction es as [|e es IH]; intros out Hout; simpl; [done|].
  by apply IH, clean_step_nonempty.
Qed.

Lemma join_sep_snoc k e :
  k <> [] -> filepath.join_sep (k ++ [e]) = (filepath.join_sep k ++ "/"%char :: e)%list.
Proof.
  induction k as [|a k IH]; intros Hk; [done|].
  destruct k as [|b k]; [done|].
  change (filepath.join_sep ((a :: b :: k) ++ [e]))
    with (a ++ "/"%char :: filepath.join_sep ((b :: k) ++ [e]))%list.
  rewrite IH by done.
  change (filepath.join_sep (a :: b :: k))
    with (a ++ "/"%char :: filepath.join_sep (b :: k))%list.
  by rewrite <- app_assoc.
Qed.

Lemma join_sep_nonempty k :
  k <> [] -> Forall (fun x => x <> []) k -> filepath.join_sep k <> [].
Proof.
  destruct k as [|a k]; [done|]. intros _ [Ha _]%Forall_cons.
  destruct k; simpl; [done|]. by destruct a.
Qed.

Lemma render_push rooted st e :
  st <> [] -> Forall (fun x => x <> []) st ->
  filepath.render rooted (e :: st) = (filepath.render rooted st ++ "/"%char :: e)%list.
Proof.
  intros Hst Hne. unfold filepath.render. simpl.
  assert (Hrev : rev st <> []) by (intros E; apply Hst; by rewrite <- (rev_involutive st), E).
  rewrite join_sep_snoc by done.
  destruct rooted; [done|].
  assert (Hbody : filepath.join_sep (rev st) <> []).
  { apply join_sep_nonempty; [done|]. by apply Forall_rev. }
  destruct (filepath.join_sep (rev st)) as [|c body]; done.
Qed.

Lemma is_rooted_app l r : l <> [] -> filepath.is_rooted (l ++ r) = filepath.is_rooted l.
Proof. by destruct l. Qed.

Lemma clean_unfold l :
  l <> [] ->
  filepath.clean l
  = filepath.render (filepath.is_rooted l)
      (fold_left (filepath.clean_step (filepath.is_rooted l)) (filepath.elements l) []).
Proof. by destruct l. Qed.

(** Cleaning a path extended by one ordinary element. *)
Lemma clean_snoc l e :
  l <> [] ->
  fold_left (filepath.clean_step (filepath.is_rooted l)) (filepath.elements l) [] <> [] ->
  e <> [] -> slash_free e -> e <> filepath.dot -> e <> filepath.dotdot ->
  filepath.clean (l ++ "/"%char :: e) = (filepath.clean l ++ "/"%char :: e)%list.
Proof.
  intros Hl Hst He Hsf Hd Hdd.
  rewrite (clean_unfold (l ++ _)) by (by destruct l).
  rewrite (clean_unfold l) by done.
  rewrite is_rooted_app by done.
  rewrite elements_app_sep, fold_left_app, (elements_slash_free e) by done.
  cbn [fold_left]. rewrite clean_step_push by done.
  apply render_push; [done|]. by apply clean_fold_nonempty.
Qed.

Lemma bytes_eq_iff s l : bytes s = l <-> s = str l.
Proof.
  split; [intros <-; by rewrite str_bytes|intros ->; apply bytes_str].
Qed.

Lemma file_name_bytes f :
  file_name f ->
  bytes f <> [] /\ slash_free (bytes f) /\ bytes f <> filepath.dot /\ bytes f <> filepath.dotdot.
Proof.
  intros (Hne & Hsf & Hd & Hdd). split_and!; [done..| |].
  - intros E. apply Hd. by apply bytes_inj.
  - intros E. apply Hdd. by apply bytes_inj.
Qed.

Lemma usable_dir_stack dir :
  usable_dir dir ->
  bytes dir <> [] /\
  fold_left (filepath.clean_step (filepath.is_rooted (bytes dir)))
    (filepath.elements (bytes dir)) [] <> [].
Proof.
  intros (Hclean & Hdot & Hroot).
  assert (Hne : bytes dir <> []).
  { intros E. unfold filepath.Clean in Hclean. rewrite E in Hclean. simpl in Hclean.
    apply Hdot. by rewrite <- Hclean. }
  split; [done|]. intros Hst.
  unfold filepath.Clean in Hclean. rewrite clean_unfold, Hst in Hclean by done.
  unfold filepath.render in Hclean. simpl in Hclean.
  destruct (filepath.is_rooted (bytes dir)); simpl in Hclean; congruence.
Qed.

Lemma Clean_file_name f : file_name f -> filepath.Clean f = f.
Proof.
  intros (Hne & Hsf & Hd & Hdd)%file_name_bytes. unfold filepath.Clean.
  rewrite clean_unfold by done.
  rewrite elements_slash_free by done. cbn [fold_left].
  rewrite clean_step_push by done.
  assert (Hr : filepath.is_rooted (bytes f) = false).
  { destruct (bytes f) as [|c l]; [done|]. by apply Forall_cons in Hsf as [? _]. }
  rewrite Hr. unfold filepath.render. simpl.
  destruct (bytes f) eqn:E; [done|]. rewrite <- E. apply str_bytes.
Qed.

(** For a usable directory, joining a file name is concatenation. *)
Lemma Join_file_name dir f :
  usable_dir dir -> file_name f -> filepath.Join dir f = entry_path dir f.
Proof.
  intros Hdir Hf. pose proof (usable_dir_stack dir Hdir) as [Hne Hst].
  apply file_name_bytes in Hf as (Hfne & Hsf & Hd & Hdd).
  destruct Hdir as (Hclean & _ & _).
  unfold filepath.Join, entry_path.
  rewrite bool_decide_eq_false_2 by (intros ->; done).
  unfold filepath.Clean. rewrite !bytes_app. change (bytes "/") with ["/"%char].
  simpl app. rewrite clean_snoc by done.
  unfold filepath.Clean in Hclean.
  rewrite str_app. rewrite Hclean.
  change ("/"%char :: bytes f) with (["/"%char] ++ bytes f)%list.
  by rewrite str_app, str_bytes.
Qed.

Lemma HasPrefix_entry dir name : HasPrefix (entry_path dir name) dir = true.
Proof. unfold HasPrefix, entry_path. rewrite bytes_app. apply hasPrefix_app. Qed.

Lemma span_all f l r :
  Forall (fun c => f c = true) l ->
  match r with [] => True | c :: _ => f c = false end ->
  filepath.span f (l ++ r) = (l, r).
Proof.
  intros Hl Hr. induction Hl as [|c l Hc _ IH]; simpl.
  - destruct r as [|c r]; [done|]. simpl. by rewrite Hr.
  - by rewrite Hc, IH.
Qed.

Lemma slash_free_rev l : slash_free l -> slash_free (rev l).
Proof. apply Forall_rev. Qed.

Lemma slash_free_app l k : slash_free (l ++ k) <-> slash_free l /\ slash_free k.
Proof. apply Forall_app. Qed.

(** [filepath.Base] of an entry path is the entry's name. *)
Lemma Base_entry dir g :
  bytes g <> [] -> slash_free (bytes g) -> filepath.Base (entry_path dir g) = g.
Proof.
  intros Hne Hsf.
  set (R := (rev (bytes g) ++ "/"%char :: rev (bytes dir))%list).
  assert (Hrev : rev (bytes (entry_path dir g)) = R).
  { unfold entry_path, R. rewrite !bytes_app. change (bytes "/") with ["/"%char].
    rewrite !rev_app_distr. by rewrite <- app_assoc. }
  assert (Hrne : rev (bytes g) <> []).
  { intros E. apply Hne. by rewrite <- (rev_involutive (bytes g)), E. }
  assert (Hstrip : (filepath.span IsPathSeparator R).2 = R).
  { unfold R. pose proof (slash_free_rev _ Hsf) as Hr.
    destruct (rev (bytes g)) as [|c r]; [done|].
    apply Forall_cons in Hr as [Hc _]. simpl. by rewrite Hc. }
  assert (Hlast : (filepath.span (fun c => negb (IsPathSeparator c)) R).1 = rev (bytes g)).
  { unfold R. rewrite (span_all _ (rev (bytes g))); [done| |done].
    eapply Forall_impl; [apply slash_free_rev, Hsf|]. intros c Hc. simpl. by rewrite Hc. }
  unfold filepath.Base.
  rewrite bool_decide_eq_false_2 by (unfold entry_path; by destruct dir).
  cbv zeta. rewrite Hrev, Hstrip, Hlast.
  destruct (rev (bytes g)) eqn:E; [done|].
  rewrite <- E, rev_involutive. apply str_bytes.
Qed.

Lemma ext_scan_stops r t acc :
  slash_free r ->
  filepath.ext_scan (r ++ "/"%char :: t) acc = filepath.ext_scan r acc.
Proof.
  intros Hsf. revert acc. induction Hsf as [|c r Hc _ IH]; intros acc; simpl; [done|].
  rewrite Hc. destruct (isDot c); [done|]. apply IH.
Qed.

(** The extension of an entry path is the extension of the entry's name. *)
Lemma Ext_entry dir f :
  slash_free (bytes f) -> filepath.Ext (entry_path dir f) = filepath.Ext f.
Proof.
  intros Hsf. unfold filepath.Ext, entry_path.
  rewrite !bytes_app. change (bytes "/") with ["/"%char].
  rewrite !rev_app_distr. simpl rev at 2. rewrite <- !app_assoc. simpl app at 2.
  by rewrite ext_scan_stops by by apply slash_free_rev.
Qed.

Lemma ext_scan_suffix r acc :
  exists pre, (rev r ++ acc = pre ++ filepath.ext_scan r acc)%list.
Proof.
  revert acc. induction r as [|c r IH]; intros acc; simpl.
  - exists acc. by rewrite app_nil_r.
  - destruct (IsPathSeparator c).
    + eexists. by rewrite app_nil_r.
    + destruct (isDot c).
      * exists (rev r). by rewrite <- app_assoc.
      * destruct (IH (c :: acc)) as [pre Hpre]. exists pre.
        by rewrite <- app_assoc.
Qed.

(** A path is its stem followed by its extension, and the slice
    [path[:len(path)-len(ext)]] is the stem. *)
Lemma Ext_splits path :
  exists stem,
    path = stem +:+ filepath.Ext path /\
    slice_to path (len path - len (filepath.Ext path)) = stem.
Proof.
  destruct (ext_scan_suffix (rev (bytes path)) []) as [pre Hpre].
  rewrite rev_involutive, app_nil_r in Hpre.
  exists (str pre).
  assert (Hext : bytes (filepath.Ext path) = filepath.ext_scan (rev (bytes path)) [])
    by apply bytes_str.
  split.
  - apply bytes_inj. by rewrite bytes_app, bytes_str, Hext.
  - unfold slice_to. rewrite !len_bytes, Hext.
    set (e := filepath.ext_scan (rev (bytes path)) []) in *.
    rewrite Hpre, length_app.
    replace (List.length pre + List.length e - List.length e)%nat
      with (List.length pre) by lia.
    by rewrite take_app_length.
Qed.

Lemma append_assoc3 a b c : (a +:+ b) +:+ c = a +:+ (b +:+ c).
Proof. apply bytes_inj. by rewrite !bytes_app, <- app_assoc. Qed.

Lemma bytes_String c s : bytes (String c s) = c :: bytes s.
Proof. done. Qed.

Lemma digits_slash_free d : slash_free (bytes (DecimalString.NilEmpty.string_of_uint d)).
Proof.
  induction d; simpl; rewrite ?bytes_String; try (constructor; [done|done]). constructor.
Qed.

Lemma Sprintf_d_slash_free i : slash_free (bytes (Sprintf_d i)).
Proof.
  unfold Sprintf_d, DecimalString.NilZero.string_of_uint.
  destruct (Nat.to_uint i) eqn:E; try (rewrite <- E; apply digits_slash_free).
  by repeat constructor.
Qed.

Lemma candidate_entry dir stem ext i :
  candidate (entry_path dir stem) ext i = entry_path dir (suffixed stem ext i).
Proof. unfold candidate, entry_path, suffixed. by rewrite !append_assoc3. Qed.

Lemma suffixed_file_name stem ext i :
  slash_free (bytes stem) -> slash_free (bytes ext) -> file_name (suffixed stem ext i).
Proof.
  intros Hs He.
  assert (Hb : bytes (suffixed stem ext i)
               = (bytes stem ++ "_"%char :: bytes (Sprintf_d i) ++ bytes ext)%list).
  { unfold suffixed. by rewrite !bytes_app. }
  assert (Hin : "_"%char ∈ bytes (suffixed stem ext i)).
  { rewrite Hb. apply elem_of_app. right. apply list_elem_of_here. }
  split_and!.
  - intros E. rewrite E in Hin. by apply elem_of_nil in Hin.
  - rewrite Hb. apply slash_free_app. split; [done|].
    constructor; [done|]. apply slash_free_app. split; [apply Sprintf_d_slash_free|done].
  - intros E. rewrite E in Hin.
    apply list_elem_of_singleton in Hin. discriminate Hin.
  - intros E. rewrite E in Hin.
    repeat (apply elem_of_cons in Hin as [Hin|Hin]; [discriminate Hin|]).
    by apply elem_of_nil in Hin.
Qed.

(** ** Name resolution for file names *)

(** In this model of the filesystem: for a part whose base name is a file
    name, name resolution stays in the shared directory.  It returns the base name itself when no entry of
    that name exists; otherwise the stem, [_j] and the extension, where [j] is
    the least number from 1 whose name is not taken.  The destination is the
    entry of the returned name, and it does not exist yet. *)
Theorem resolveName_of_file_name config file w :
  let dir := UploadsDir config in
  let f := filepath.Base (FileHeader.Filename file) in
  usable_dir dir ->
  file_name f ->
  exists name,
    (resolveName config file w).1 = (entry_path dir name, name) /\
    file_name name /\
    fs w !! entry_path dir name = None /\
    ((fs w !! entry_path dir f = None /\ name = f) \/
     (is_Some (fs w !! entry_path dir f) /\
      exists stem j,
        f = stem +:+ filepath.Ext f /\
        (1 <= j)%nat /\
        name = suffixed stem (filepath.Ext f) j /\
        forall k, (1 <= k < j)%nat ->
          is_Some (fs w !! entry_path dir (suffixed stem (filepath.Ext f) k)))).
Proof.
  intros dir f Hdir Hf. unfold resolveName. fold dir f.
  rewrite (Join_file_name dir f) by done. unfold os.Stat. munfold. cbn -[dupLoop].
  destruct (fs w !! entry_path dir f) as [n|] eqn:Hfirst; cbn -[dupLoop].
  - pose proof Hf as (Hfne & Hsf & _ & _).
    rewrite Ext_entry by done.
    destruct (Ext_splits f) as (stem & Hstem & _).
    destruct (Ext_splits (entry_path dir f)) as (base & Hbase & Hslice).
    rewrite Ext_entry in Hbase, Hslice by done. rewrite Hslice.
    assert (Hb : base = entry_path dir stem).
    { apply (append_inv_tail _ _ (filepath.Ext f)). rewrite <- Hbase.
      unfold entry_path. rewrite !append_assoc3. by rewrite <- Hstem. }
    rewrite Hb. clear Hslice Hbase Hb base.
    assert (Hparts : slash_free (bytes stem) /\ slash_free (bytes (filepath.Ext f))).
    { apply slash_free_app. rewrite <- bytes_app. by rewrite <- Hstem. }
    destruct Hparts as [Hs He].
    destruct (dupLoop_finds (S (size (fs w))) (entry_path dir stem) (filepath.Ext f) 1
                (mkWorld (fs w) (now w) (calls w ++ [CStat (entry_path dir f)])))
      as (j & Hj & Hfree & Hbelow & Hrun).
    { simpl. apply free_candidate. }
    simpl in Hfree, Hbelow. rewrite Hrun. cbn -[dupLoop].
    rewrite candidate_entry in Hfree |- *.
    pose proof (suffixed_file_name stem (filepath.Ext f) j Hs He) as Hname.
    exists (suffixed stem (filepath.Ext f) j).
    rewrite Base_entry by apply Hname.
    split_and!; [done..|]. right. split; [by eexists|].
    exists stem, j. split_and!; [done|lia|done|].
    intros k Hk. rewrite <- candidate_entry. by apply Hbelow.
  - exists f. split_and!; [done..|]. by left.
Qed.

Lemma sample_dir_usable : usable_dir (UploadsDir Sample.config).
Proof. unfold usable_dir. split; [reflexivity|]. split; intros [=]. Qed.

Lemma a_txt_file_name : file_name "a.txt".
Proof.
  unfold file_name. split; [intros [=]|]. split; [by repeat constructor|].
  split; intros [=].
Qed.

Lemma resolveName_of_file_name_witness :
  (resolveName Sample.config (Sample.part "x/a.txt" Sample.B) Sample.tied).1
  = ("/srv/uploads/a_1.txt", "a_1.txt").
Proof.
  destruct (resolveName_of_file_name Sample.config (Sample.part "x/a.txt" Sample.B)
              Sample.tied sample_dir_usable a_txt_file_name) as (name & Hres & _).
  rewrite Hres. apply (f_equal snd) in Hres. vm_compute in Hres.
  by rewrite <- Hres.
Defined.

(** ** Requests that name a file *)

(** X7: a request for a file name (not empty, no separator, neither [.]
    nor [..]) is never turned away by the security check: the path built from
    it is the entry of that name in the shared directory, it passes the check
    and it lies inside the directory, so neither the single delete nor the
    download answers 403. *)
Theorem file_name_request_is_never_denied `{Runtime} config f :
  usable_dir (UploadsDir config) ->
  file_name f ->
  let filePath := filepath.Join (UploadsDir config) (filepath.Clean f) in
  filePath = entry_path (UploadsDir config) f /\
  contained config filePath = true /\
  lies_inside (UploadsDir config) filePath = true /\
  (forall w, status (handleDelete config f w).1 <> 403%nat) /\
  (forall arg w, status (handleDownload config f arg w).1 <> 403%nat).
Proof.
  intros Hdir Hf filePath.
  assert (Hpath : filePath = entry_path (UploadsDir config) f).
  { unfold filePath. by rewrite Clean_file_name, Join_file_name. }
  assert (Hc : contained config filePath = true).
  { rewrite Hpath. apply HasPrefix_entry. }
  split_and!; [done|done| | |].
  - rewrite Hpath. unfold lies_inside, entry_path. apply orb_true_iff. right.
    unfold HasPrefix. rewrite <- append_assoc3, (bytes_app (_ +:+ "/")).
    apply hasPrefix_app.
  - intros w. unfold handleDelete. fold filePath. rewrite Hc. simpl. munfold.
    destruct (os.Remove filePath w) as [[] ?]; done.
  - intros arg w. unfold handleDownload. fold filePath. rewrite Hc. simpl. munfold.
    destruct (os.Open filePath w) as [[[c t|s t]|] ?]; [| |done];
      by destruct (QueryBool arg true).
Qed.

Lemma file_name_request_witness :
  filepath.Join (UploadsDir Sample.config) (filepath.Clean "a.txt") = "/srv/uploads/a.txt" /\
  contained Sample.config "/srv/uploads/a.txt" = true.
Proof.
  destruct (file_name_request_is_never_denied (H := refRuntime) Sample.config "a.txt"
              sample_dir_usable a_txt_file_name) as (Hpath & Hc & _).
  split; [exact Hpath|]. by rewrite Hpath in Hc.
Defined.
